(** * Minecraft-3D-Graphics: the frame loop of [src/main.cpp]

    A shallow embedding of the scene construction ([minecraftScene]) and of
    the per-frame gameplay logic of [main]: the day/night clock, the sun
    sweep, the chase camera, the two fleeing targets with their wall bounce
    and their removal, and the termination of the loop.

    Numbers are IEEE-754 binary32 values ([float] of C++), computed with the
    executable specification of the Standard Library ([SpecFloat], precision
    24, maximal exponent 128, round to nearest even).  Raw [Object3D*]
    pointers are addresses: a slot of the scene's object vector, or a slot
    of a heap-allocated child vector. *)

From Stdlib Require Import ZArith Bool QArith Qcanon Floats.SpecFloat.
From stdpp Require Import base option list gmap strings.

Open Scope Z_scope.

(** ** Scalars *)

(** The arithmetic a [glm::vec3]-based computation needs.  The program runs
    it at [float]; the animation law is also read at exact rationals. *)
Class Scalar (T : Type) := {
  szero : T;
  sadd : T -> T -> T;
  ssub : T -> T -> T;
  smul : T -> T -> T;
  sdiv : T -> T -> T;
  sltb : T -> T -> bool;
  sleb : T -> T -> bool
}.

Declare Scope scalar_scope.
Delimit Scope scalar_scope with S.
Infix "+" := sadd : scalar_scope.
Infix "-" := ssub : scalar_scope.
Infix "*" := smul : scalar_scope.
Infix "/" := sdiv : scalar_scope.
Infix "<?" := sltb : scalar_scope.
Infix "<=?" := sleb : scalar_scope.

(** *** binary32 *)

Definition float : Type := spec_float.

Definition prec : Z := 24.
Definition emax : Z := 128.

Definition fadd : float -> float -> float := SFadd prec emax.
Definition fsub : float -> float -> float := SFsub prec emax.
Definition fmul : float -> float -> float := SFmul prec emax.
Definition fdiv : float -> float -> float := SFdiv prec emax.
Definition fsqrt : float -> float := SFsqrt prec emax.
Definition fltb : float -> float -> bool := SFltb.
Definition fleb : float -> float -> bool := SFleb.

(** Conversion of an [int] to [float]. *)
Definition of_Z (n : Z) : float := binary_normalize prec emax n 0 false.

(** A decimal literal [n/d] with [n] and [d] below 2^24: both are exact in
    binary32, so one correctly rounded division gives the literal's value
    ([dec 6 10] is [0.6f]). *)
Definition dec (n d : Z) : float := fdiv (of_Z n) (of_Z d).

#[global] Instance float_scalar : Scalar float := {|
  szero := of_Z 0;
  sadd := fadd; ssub := fsub; smul := fmul; sdiv := fdiv;
  sltb := fltb; sleb := fleb
|}.

(** [(float) M_PI]: the binary32 value closest to pi, 0x40490FDB. *)
Definition M_PI : float := S754_finite false 13176795 (-22).

(** *** exact rationals *)

Definition Qc_leb (a b : Qc) : bool := Qle_bool a b.
Definition Qc_ltb (a b : Qc) : bool := negb (Qle_bool b a).

#[global] Instance Qc_scalar : Scalar Qc := {|
  szero := 0%Qc;
  sadd := Qcplus; ssub := Qcminus; smul := Qcmult; sdiv := Qcdiv;
  sltb := Qc_ltb; sleb := Qc_leb
|}.

(** ** glm *)

Record vec3 (T : Type) := Vec3 { x : T; y : T; z : T }.
Arguments Vec3 {T} _ _ _.
Arguments x {T} _.
Arguments y {T} _.
Arguments z {T} _.

Section Glm.
Context {T : Type} `{Scalar T}.
Local Open Scope scalar_scope.

(** [glm::vec3(s)] *)
Definition splat (s : T) : vec3 T := Vec3 s s s.

(** [u + v], [u - v], [u * v] on vectors and [v * s] by a scalar *)
Definition vadd (u v : vec3 T) : vec3 T :=
  Vec3 (x u + x v) (y u + y v) (z u + z v).
Definition vsub (u v : vec3 T) : vec3 T :=
  Vec3 (x u - x v) (y u - y v) (z u - z v).
Definition vmul (u v : vec3 T) : vec3 T :=
  Vec3 (x u * x v) (y u * y v) (z u * z v).
Definition vscale (v : vec3 T) (s : T) : vec3 T :=
  Vec3 (x v * s) (y v * s) (z v * s).

(** [glm::dot]: [x*x' + y*y' + z*z'], summed left to right *)
Definition dot (u v : vec3 T) : T :=
  x u * x v + y u * y v + z u * z v.

(** [glm::cross] *)
Definition cross (u v : vec3 T) : vec3 T :=
  Vec3 (y u * z v - y v * z u)
       (z u * x v - z v * x u)
       (x u * y v - x v * y u).
End Glm.

Definition fone : float := of_Z 1.

(** [-v] *)
Definition vneg (v : vec3 float) : vec3 float :=
  Vec3 (SFopp (x v)) (SFopp (y v)) (SFopp (z v)).

(** [glm::length] *)
Definition length3 (v : vec3 float) : float := fsqrt (dot v v).

(** [glm::normalize]: [v * inversesqrt(dot(v, v))] *)
Definition normalize (v : vec3 float) : vec3 float :=
  vscale v (fdiv fone (fsqrt (dot v v))).

(** [glm::mix(a, b, t)] with a scalar weight: [a * (1 - t) + b * t] *)
Definition mix (a b : vec3 float) (t : float) : vec3 float :=
  vadd (vscale a (fsub fone t)) (vscale b t).

(** [glm::radians]: degrees times [(float) 0.01745329251994329577],
    0x3C8EFA35 *)
Definition radians (d : float) : float :=
  fmul d (S754_finite false 9370165 (-29)).

(** ** Objects, pointers and the heap *)

Definition addr : Type := nat.

(** Modelled from the spec: [Object3D.h] is not part of the sources.  An
    object has a name tag (default empty), a local position, orientation
    (Euler angles) and scale, and an ordered list of exclusively owned
    children.  The children live in a heap buffer of their own, as the
    elements of a [std::vector<Object3D>] do: the object holds the buffer's
    address, and moving the object moves the address, not the children.
    Mesh parts only matter to rendering and are left out. *)
Record Object3D := mkObject3D {
  m_name : string;
  m_position : vec3 float;
  m_orientation : vec3 float;
  m_scale : vec3 float;
  m_children : option addr
}.

(** A raw [Object3D*]: the address of slot [i] of the scene's object
    vector, or of slot [i] of the child buffer at [a].  The scene's vector
    is not reallocated once pointers into it are taken (after the 10201
    tile insertions its capacity exceeds the four that follow under the
    usual growth policies), so a slot's address is its index. *)
Inductive ptr :=
  | InScene (i : nat)
  | InChildren (a : addr) (i : nat).

#[global] Instance ptr_eq_dec : EqDecision ptr.
Proof. solve_decision. Defined.

Definition zero3 : vec3 float := splat (of_Z 0).

(** Modelled from the spec: the constructor of [Object3D.h], which is not
    part of the sources; a fresh object sits at the origin, unrotated, at
    scale 1, without a name and without children. *)
Definition Object3D_new : Object3D :=
  mkObject3D "" zero3 zero3 (splat fone) None.

(** Modelled from the spec: the accessors and mutators of [Object3D.h],
    which is not part of the sources; name get/set are plain accessors,
    [setPosition] and [setOrientation] replace the field. *)
Definition getName (o : Object3D) : string := m_name o.
Definition getPosition (o : Object3D) : vec3 float := m_position o.

Definition setName (n : string) (o : Object3D) : Object3D :=
  mkObject3D n (m_position o) (m_orientation o) (m_scale o) (m_children o).
Definition setPosition (p : vec3 float) (o : Object3D) : Object3D :=
  mkObject3D (m_name o) p (m_orientation o) (m_scale o) (m_children o).
Definition setOrientation (r : vec3 float) (o : Object3D) : Object3D :=
  mkObject3D (m_name o) (m_position o) r (m_scale o) (m_children o).
Definition setScale (s : vec3 float) (o : Object3D) : Object3D :=
  mkObject3D (m_name o) (m_position o) (m_orientation o) s (m_children o).
Definition setChildren (c : option addr) (o : Object3D) : Object3D :=
  mkObject3D (m_name o) (m_position o) (m_orientation o) (m_scale o) c.

(** Modelled from the spec: [move], [rotate] and [grow] of [Object3D.h],
    which is not part of the sources; [move] and [rotate] add to the local
    transform, [grow] multiplies the scale. *)
Definition move (d : vec3 float) (o : Object3D) : Object3D :=
  setPosition (vadd (m_position o) d) o.
Definition rotate (d : vec3 float) (o : Object3D) : Object3D :=
  setOrientation (vadd (m_orientation o) d) o.
Definition grow (f : vec3 float) (o : Object3D) : Object3D :=
  setScale (vmul (m_scale o) f) o.

(** Modelled from the spec: [addChild] of [Object3D.h], which is not part
    of the sources; [parent.addChild(std::move(child))] appends to the child
    vector.  The vector may reallocate when it grows; the model always
    gives the grown buffer a fresh address, so that no pointer into the old
    one survives. *)
Definition addChild (child : Object3D) (parent : Object3D)
    (h : gmap addr (list Object3D)) : Object3D * gmap addr (list Object3D) :=
  let old := default [] (a ← m_children parent; h !! a) in
  let h' := from_option (fun a => delete a h) h (m_children parent) in
  let a' := fresh (dom h) in
  (setChildren (Some a') parent, <[a' := old ++ [child]]> h').

(** Modelled from the spec: the destructor of [Object3D.h], which is not
    part of the sources; an object owns its children exclusively, so its
    destruction releases its child buffer and the buffers of the children.
    [fuel] bounds the depth of the tree. *)
Fixpoint destroy (fuel : nat) (o : Object3D)
    (h : gmap addr (list Object3D)) : gmap addr (list Object3D) :=
  match fuel, m_children o with
  | S k, Some a =>
      match h !! a with
      | Some cs => foldr (destroy k) (delete a h) cs
      | None => h
      end
  | _, _ => h
  end.

(** Modelled from the spec: [ShaderProgram.h] is not part of the sources;
    a program is its OpenGL handle, 0 before [load]. *)
Definition ShaderProgram : Type := nat.

(** ** Animations *)

Section Animation.
Context {T : Type} `{Scalar T}.
Local Open Scope scalar_scope.

(** Modelled from the spec: [RotationAnimation] of [Animator.h], which is
    not part of the sources; a rotation animation has a target, a duration,
    a total rotation and the time elapsed so far. *)
Record RotationAnimation := mkRotation {
  ra_target : ptr;
  ra_duration : T;
  ra_delta : vec3 T;
  ra_elapsed : T
}.

(** Modelled from the spec: [start] resets the elapsed time to zero. *)
Definition ra_start (a : RotationAnimation) : RotationAnimation :=
  mkRotation (ra_target a) (ra_duration a) (ra_delta a) szero.

(** The rotation one call applies. *)
Definition ra_step (a : RotationAnimation) (dt : T) : vec3 T :=
  vscale (ra_delta a) (dt / ra_duration a).

(** Modelled from the spec: [tick dt] adds [dt] to the elapsed time,
    rotates the target by [delta * (dt / duration)] and reports completion
    once the elapsed time has reached the duration.  The function takes the
    orientation of the target and returns the animation afterwards, the new
    orientation, and whether the animation is done. *)
Definition ra_tick (dt : T) (a : RotationAnimation) (orientation : vec3 T)
    : RotationAnimation * vec3 T * bool :=
  let elapsed := ra_elapsed a + dt in
  (mkRotation (ra_target a) (ra_duration a) (ra_delta a) elapsed,
   vadd orientation (ra_step a dt),
   ra_duration a <=? elapsed).

End Animation.
Arguments RotationAnimation T : clear implicits.

(** Modelled from the spec: [Animator] of [Animator.h], which is not part
    of the sources; an animator owns animations; [start] starts each of
    them, [tick] ticks each active one in list order and drops those that
    report completion. *)
Record Animator := mkAnimator {
  m_animations : list (RotationAnimation float);
  m_started : bool
}.

Definition Animator_start (an : Animator) : Animator :=
  mkAnimator (map ra_start (m_animations an)) true.

(** ** The scene and the global state of the program *)

Record Scene := mkScene {
  program : ShaderProgram;
  objects : list Object3D;
  animators : list Animator
}.

(** The scene of [main], the heap of child buffers, and the globals of
    [main.cpp] that change while the program runs. *)
Record State := mkState {
  myScene : Scene;
  heap : gmap addr (list Object3D);
  creeperRef : option ptr;
  sunRef : option ptr;
  steveRef : option ptr;
  pigRef : option ptr;
  creeperYaw : float;
  cameraPos : vec3 float;
  cameraFront : vec3 float;
  yaw : float;
  pitch : float;
  sunTime : float;
  ambientColor : vec3 float;
  pigFleeDir : vec3 float;
  steveFleeDir : vec3 float
}.

Definition set_myScene (v : Scene) (st : State) : State :=
  mkState v (heap st) (creeperRef st) (sunRef st) (steveRef st) (pigRef st)
    (creeperYaw st) (cameraPos st) (cameraFront st) (yaw st) (pitch st)
    (sunTime st) (ambientColor st) (pigFleeDir st) (steveFleeDir st).
Definition set_heap (v : gmap addr (list Object3D)) (st : State) : State :=
  mkState (myScene st) v (creeperRef st) (sunRef st) (steveRef st)
    (pigRef st) (creeperYaw st) (cameraPos st) (cameraFront st) (yaw st)
    (pitch st) (sunTime st) (ambientColor st) (pigFleeDir st)
    (steveFleeDir st).
Definition set_creeperRef (v : option ptr) (st : State) : State :=
  mkState (myScene st) (heap st) v (sunRef st) (steveRef st) (pigRef st)
    (creeperYaw st) (cameraPos st) (cameraFront st) (yaw st) (pitch st)
    (sunTime st) (ambientColor st) (pigFleeDir st) (steveFleeDir st).
Definition set_sunRef (v : option ptr) (st : State) : State :=
  mkState (myScene st) (heap st) (creeperRef st) v (steveRef st) (pigRef st)
    (creeperYaw st) (cameraPos st) (cameraFront st) (yaw st) (pitch st)
    (sunTime st) (ambientColor st) (pigFleeDir st) (steveFleeDir st).
Definition set_steveRef (v : option ptr) (st : State) : State :=
  mkState (myScene st) (heap st) (creeperRef st) (sunRef st) v (pigRef st)
    (creeperYaw st) (cameraPos st) (cameraFront st) (yaw st) (pitch st)
    (sunTime st) (ambientColor st) (pigFleeDir st) (steveFleeDir st).
Definition set_pigRef (v : option ptr) (st : State) : State :=
  mkState (myScene st) (heap st) (creeperRef st) (sunRef st) (steveRef st) v
    (creeperYaw st) (cameraPos st) (cameraFront st) (yaw st) (pitch st)
    (sunTime st) (ambientColor st) (pigFleeDir st) (steveFleeDir st).
Definition set_creeperYaw (v : float) (st : State) : State :=
  mkState (myScene st) (heap st) (creeperRef st) (sunRef st) (steveRef st)
    (pigRef st) v (cameraPos st) (cameraFront st) (yaw st) (pitch st)
    (sunTime st) (ambientColor st) (pigFleeDir st) (steveFleeDir st).
Definition set_cameraPos (v : vec3 float) (st : State) : State :=
  mkState (myScene st) (heap st) (creeperRef st) (sunRef st) (steveRef st)
    (pigRef st) (creeperYaw st) v (cameraFront st) (yaw st) (pitch st)
    (sunTime st) (ambientColor st) (pigFleeDir st) (steveFleeDir st).
Definition set_cameraFront (v : vec3 float) (st : State) : State :=
  mkState (myScene st) (heap st) (creeperRef st) (sunRef st) (steveRef st)
    (pigRef st) (creeperYaw st) (cameraPos st) v (yaw st) (pitch st)
    (sunTime st) (ambientColor st) (pigFleeDir st) (steveFleeDir st).
Definition set_yaw (v : float) (st : State) : State :=
  mkState (myScene st) (heap st) (creeperRef st) (sunRef st) (steveRef st)
    (pigRef st) (creeperYaw st) (cameraPos st) (cameraFront st) v (pitch st)
    (sunTime st) (ambientColor st) (pigFleeDir st) (steveFleeDir st).
Definition set_pitch (v : float) (st : State) : State :=
  mkState (myScene st) (heap st) (creeperRef st) (sunRef st) (steveRef st)
    (pigRef st) (creeperYaw st) (cameraPos st) (cameraFront st) (yaw st) v
    (sunTime st) (ambientColor st) (pigFleeDir st) (steveFleeDir st).
Definition set_sunTime (v : float) (st : State) : State :=
  mkState (myScene st) (heap st) (creeperRef st) (sunRef st) (steveRef st)
    (pigRef st) (creeperYaw st) (cameraPos st) (cameraFront st) (yaw st)
    (pitch st) v (ambientColor st) (pigFleeDir st) (steveFleeDir st).
Definition set_ambientColor (v : vec3 float) (st : State) : State :=
  mkState (myScene st) (heap st) (creeperRef st) (sunRef st) (steveRef st)
    (pigRef st) (creeperYaw st) (cameraPos st) (cameraFront st) (yaw st)
    (pitch st) (sunTime st) v (pigFleeDir st) (steveFleeDir st).
Definition set_pigFleeDir (v : vec3 float) (st : State) : State :=
  mkState (myScene st) (heap st) (creeperRef st) (sunRef st) (steveRef st)
    (pigRef st) (creeperYaw st) (cameraPos st) (cameraFront st) (yaw st)
    (pitch st) (sunTime st) (ambientColor st) v (steveFleeDir st).
Definition set_steveFleeDir (v : vec3 float) (st : State) : State :=
  mkState (myScene st) (heap st) (creeperRef st) (sunRef st) (steveRef st)
    (pigRef st) (creeperYaw st) (cameraPos st) (cameraFront st) (yaw st)
    (pitch st) (sunTime st) (ambientColor st) (pigFleeDir st) v.

Definition set_objects (l : list Object3D) (st : State) : State :=
  set_myScene
    (mkScene (program (myScene st)) l (animators (myScene st))) st.
Definition set_animators (l : list Animator) (st : State) : State :=
  set_myScene
    (mkScene (program (myScene st)) (objects (myScene st)) l) st.

(** Constants of [main.cpp]. *)
Definition cameraUp : vec3 float := Vec3 (of_Z 0) fone (of_Z 0).
Definition cameraTarget : vec3 float := zero3.
Definition sensitivity : float := radians (of_Z 180).
Definition mapMinX : float := of_Z (-50).
Definition mapMaxX : float := of_Z 50.
Definition mapMinZ : float := of_Z (-50).
Definition mapMaxZ : float := of_Z 50.

(** ** Dereferencing *)

(** [*p]: undefined ([None]) when [p] does not address a live object. *)
Definition load (p : ptr) (st : State) : option Object3D :=
  match p with
  | InScene i => objects (myScene st) !! i
  | InChildren a i => cs ← heap st !! a; cs !! i
  end.

(** [*p = o] *)
Definition store (p : ptr) (o : Object3D) (st : State) : option State :=
  match p with
  | InScene i =>
      if decide (i < length (objects (myScene st)))%nat
      then Some (set_objects (<[i := o]> (objects (myScene st))) st)
      else None
  | InChildren a i =>
      cs ← heap st !! a;
      if decide (i < length cs)%nat
      then Some (set_heap (<[a := <[i := o]> cs]> (heap st)) st)
      else None
  end.

(** [p->f(...)] for a mutator [f] of [Object3D] *)
Definition call (p : ptr) (f : Object3D -> Object3D) (st : State)
    : option State :=
  o ← load p st; store p (f o) st.

(** ** What the program takes from outside *)

(** The C library's trigonometry, the shader compiler and the model
    importer.  [shader_load vert frag p] is [p.load(vert, frag)]: the
    message of the [std::runtime_error] it throws, or the loaded program.
    [assimpLoad path flipUV h] returns the imported object and the heap
    extended with the child buffers of the import. *)
Record Platform := mkPlatform {
  cosf : float -> float;
  sinf : float -> float;
  atan2f : float -> float -> float;
  shader_load : string -> string -> ShaderProgram -> string + ShaderProgram;
  assimpLoad : string -> bool -> gmap addr (list Object3D) ->
               Object3D * gmap addr (list Object3D)
}.

(** What one iteration of the frame loop reads: whether a [Closed] event
    was polled, the time since the last frame, and the keys held down. *)
Record Input := mkInput {
  closed : bool;
  deltaTime : float;
  keyW : bool; keyS : bool; keyA : bool; keyD : bool;
  keyUp : bool; keyDown : bool; keyLeft : bool; keyRight : bool
}.

(** What the program does to the outside. *)
Inductive effect :=
  | StdoutCwd
  | Stdout (s : string)
  | StdoutFPS (v : float)
  | SleepMs (ms : Z).

(** A computation that may call [exit]. *)
Inductive run (A : Type) :=
  | Ret (a : A)
  | Exited (status : Z) (out : list effect).
Arguments Ret {A} _.
Arguments Exited {A} _ _.

(** Sequencing: an [exit] ends the computation. *)
Definition run_bind {A B : Type} (m : run A) (k : A -> run B) : run B :=
  match m with
  | Ret a => k a
  | Exited c out => Exited c out
  end.

Definition endl : string := String (Ascii.ascii_of_nat 10) EmptyString.

(** [a > b] *)
Definition fgtb (a b : float) : bool :=
  match SFcompare a b with Some Gt => true | _ => false end.

Definition white : vec3 float := Vec3 fone fone fone.
Definition orange : vec3 float := Vec3 fone (dec 6 10) (dec 2 10).
Definition darkBlue : vec3 float := Vec3 (dec 5 100) (dec 5 100) (dec 1 10).

(** ** The day/night clock (lines 339-355) *)

(** [sunTime += deltaTime], then the colour of the phase the clock is in;
    past the third phase only the clock is assigned. *)
Definition day_cycle (dt : float) (st : State) : State :=
  let t := fadd (sunTime st) dt in
  let st := set_sunTime t st in
  if fltb t (of_Z 30) then
    set_ambientColor (mix white orange (fdiv t (of_Z 30))) st
  else if fltb t (of_Z 60) then
    set_ambientColor
      (mix orange darkBlue (fdiv (fsub t (of_Z 30)) (of_Z 30))) st
  else if fltb t (of_Z 90) then
    set_ambientColor
      (mix darkBlue white (fdiv (fsub t (of_Z 60)) (of_Z 30))) st
  else
    set_sunTime (of_Z 0) st.

(** ** The sun sweep (lines 358-367) *)

(** The x coordinate of the sun for a clock of [t]. *)
Definition sun_x (t : float) : float :=
  let x0 := fadd (of_Z (-30)) (fmul (fdiv t (of_Z 60)) (of_Z 60)) in
  if fgtb x0 (of_Z 30) then of_Z 1000 else x0.

(** [if (sunRef) sunRef->setPosition(...)] *)
Definition sun_step (st : State) : option State :=
  match sunRef st with
  | Some p =>
      let sunPos := Vec3 (sun_x (sunTime st)) (of_Z 40) (of_Z (-20)) in
      call p (setPosition sunPos) st
  | None => Some st
  end.

(** ** Camera keys (lines 373-388) *)

(** W and S tilt the camera, within 89 degrees; A and D turn it. *)
Definition camera_keys (i : Input) (st : State) : State :=
  let dt := deltaTime i in
  let st :=
    if keyW i then
      let p := fadd (pitch st) (fmul sensitivity dt) in
      set_pitch
        (if fgtb p (radians (of_Z 89)) then radians (of_Z 89) else p) st
    else st in
  let st :=
    if keyS i then
      let p := fsub (pitch st) (fmul sensitivity dt) in
      set_pitch
        (if fltb p (radians (of_Z (-89))) then radians (of_Z (-89)) else p) st
    else st in
  let st :=
    if keyA i then set_yaw (fsub (yaw st) (fmul sensitivity dt)) st else st in
  if keyD i then set_yaw (fadd (yaw st) (fmul sensitivity dt)) st else st.

(** ** The fleeing targets *)

(** The two blocks of [main] for Steve and for the pig are the same code
    on [steveRef], [steveFleeDir] and on [pigRef], [pigFleeDir]. *)
Inductive target := Steve | Pig.

Definition targetRef (t : target) (st : State) : option ptr :=
  match t with Steve => steveRef st | Pig => pigRef st end.
Definition set_targetRef (t : target) (v : option ptr) (st : State) : State :=
  match t with Steve => set_steveRef v st | Pig => set_pigRef v st end.
Definition fleeDir (t : target) (st : State) : vec3 float :=
  match t with Steve => steveFleeDir st | Pig => pigFleeDir st end.
Definition set_fleeDir (t : target) (v : vec3 float) (st : State) : State :=
  match t with Steve => set_steveFleeDir v st | Pig => set_pigFleeDir v st end.

(** [pos + dir * deltaTime * 1.0f] *)
Definition propose (pos dir : vec3 float) (dt : float) : vec3 float :=
  vadd pos (vscale (vscale dir dt) fone).

(** [v < lo || v > hi] *)
Definition outside (v lo hi : float) : bool := fltb v lo || fgtb v hi.

Definition flip_x (d : vec3 float) : vec3 float :=
  Vec3 (fmul (x d) (of_Z (-1))) (y d) (z d).
Definition flip_z (d : vec3 float) : vec3 float :=
  Vec3 (x d) (y d) (fmul (z d) (of_Z (-1))).

(** The flee direction after the two boundary tests (lines 440-447,
    476-484): both test the first proposed position. *)
Definition bounce (pos dir : vec3 float) (dt : float) : vec3 float :=
  let proposedPos := propose pos dir dt in
  let dir := if outside (x proposedPos) mapMinX mapMaxX
             then flip_x dir else dir in
  if outside (z proposedPos) mapMinZ mapMaxZ then flip_z dir else dir.

(** [std::remove_if] followed by [erase] with a predicate on the address
    of the element: the elements kept, in order, and those removed.  The
    predicate sees each element at its original slot. *)
Fixpoint remove_if (p : nat -> bool) (i : nat) (l : list Object3D)
    : list Object3D * list Object3D :=
  match l with
  | [] => ([], [])
  | o :: l' =>
      let '(kept, gone) := remove_if p (S i) l' in
      if p i then (kept, o :: gone) else (o :: kept, gone)
  end.

(** The name scan that re-links the hunter (lines 463-468, 499-504). *)
Definition find_creeper (l : list Object3D) : option nat :=
  fst <$> list_find (fun o => getName o = "Creeper") l.

(** The scan sets the hunter reference to the first object of that name;
    without one the reference keeps its value. *)
Definition relink (st : State) : State :=
  match find_creeper (objects (myScene st)) with
  | Some i => set_creeperRef (Some (InScene i)) st
  | None => st
  end.

Section Program.
Variable P : Platform.

(** *** Hunter and chase camera (lines 390-435) *)

(** One arrow key: while it is held the hunter moves along [dir] at speed
    2 and turns to face [dir]. *)
Definition steer (c : ptr) (held : bool) (dir : vec3 float) (dt : float)
    (st : State) : option State :=
  if held then
    st ← call c (move (vscale (vscale dir dt) (of_Z 2))) st;
    let st := set_creeperYaw (atan2f P (x dir) (z dir)) st in
    call c (setOrientation (Vec3 (of_Z 0) (creeperYaw st) (of_Z 0))) st
  else Some st.

(** [glm::vec3(v.x, 0.0f, v.z)] *)
Definition flat (v : vec3 float) : vec3 float := Vec3 (x v) (of_Z 0) (z v).

(** The arrow keys move the hunter relative to the camera; the camera
    looks along yaw and pitch from behind and above the position the hunter
    had at the start of the block.  [cos] and [sin] are taken at [float]. *)
Definition creeper_control (i : Input) (st : State) : option State :=
  match creeperRef st with
  | Some c =>
      o ← load c st;
      let creeperPos := getPosition o in
      let dt := deltaTime i in
      let front := cameraFront st in
      st ← steer c (keyUp i) (normalize (flat front)) dt st;
      st ← steer c (keyDown i) (normalize (flat (vneg front))) dt st;
      st ← steer c (keyLeft i)
             (normalize (flat (normalize (cross cameraUp front)))) dt st;
      st ← steer c (keyRight i)
             (normalize (flat (normalize (cross front cameraUp)))) dt st;
      let direction :=
        Vec3 (fmul (cosf P (yaw st)) (cosf P (pitch st)))
             (sinf P (pitch st))
             (fmul (sinf P (yaw st)) (cosf P (pitch st))) in
      let st := set_cameraFront (normalize direction) st in
      let horizontalFront := normalize (flat (cameraFront st)) in
      let offset :=
        vadd (vscale (vneg horizontalFront) (of_Z 5))
             (Vec3 (of_Z 0) (of_Z 3) (of_Z 0)) in
      Some (set_cameraPos (vadd creeperPos offset) st)
  | None => Some st
  end.

(** *** Movement of a fleeing target (lines 438-451, 474-489) *)

(** The target's direction is corrected by [bounce], the position is
    proposed again with the corrected direction and committed, and the
    target is turned to face that direction. *)
Definition flee_move (t : target) (dt : float) (st : State)
    : option State :=
  r ← targetRef t st;
  o ← load r st;
  let pos := getPosition o in
  let st := set_fleeDir t (bounce pos (fleeDir t st) dt) st in
  let proposedPos := propose pos (fleeDir t st) dt in
  st ← call r (setPosition proposedPos) st;
  call r
    (setOrientation
       (Vec3 (of_Z 0) (atan2f P (x (fleeDir t st)) (z (fleeDir t st)))
             (of_Z 0))) st.

(** *** Removal of a caught target (lines 453-469, 492-505) *)

(** When the hunter is closer than 0.8 to the target, the element at the
    target's address is erased from the object list (and destroyed), the
    target's reference is set to null and the hunter is re-linked. *)
Definition explode (t : target) (st : State) : option State :=
  c ← creeperRef st;
  r ← targetRef t st;
  hunter ← load c st;
  prey ← load r st;
  let dist := length3 (vsub (getPosition hunter) (getPosition prey)) in
  if fltb dist (dec 8 10) then
    let '(kept, gone) :=
      remove_if (fun i => bool_decide (InScene i = r)) 0
                (objects (myScene st)) in
    let h := foldr (destroy (S (size (heap st)))) (heap st) gone in
    let st := set_heap h (set_objects kept st) in
    let st := set_targetRef t None st in
    Some (relink st)
  else Some st.

(** [if (creeperRef && steveRef) { ... }], and the same for the pig. *)
Definition flee_block (t : target) (dt : float) (st : State)
    : option State :=
  match creeperRef st, targetRef t st with
  | Some _, Some _ => st ← flee_move t dt st; explode t st
  | _, _ => Some st
  end.

(** *** Animators (lines 537-539) *)

(** Modelled from the spec: [Animator::tick], which is not part of the
    sources, on the program state: every animation of the animator is
    ticked on the orientation of its target, in list order, and dropped
    when it reports completion. *)
Fixpoint tick_animations (dt : float) (l : list (RotationAnimation float))
    (st : State) : option (list (RotationAnimation float) * State) :=
  match l with
  | [] => Some ([], st)
  | a :: l' =>
      o ← load (ra_target a) st;
      let '(a', r, done) := ra_tick dt a (m_orientation o) in
      st ← store (ra_target a) (setOrientation r o) st;
      '(l'', st) ← tick_animations dt l' st;
      Some (if done : bool then l'' else a' :: l'', st)
  end.

(** [for (auto& anim : myScene.animators) anim.tick(dt)] *)
Fixpoint tick_animators (dt : float) (l : list Animator) (st : State)
    : option (list Animator * State) :=
  match l with
  | [] => Some ([], st)
  | an :: l' =>
      '(as', st) ← tick_animations dt (m_animations an) st;
      '(l'', st) ← tick_animators dt l' st;
      Some (mkAnimator as' (m_started an) :: l'', st)
  end.

(** *** One iteration of [while (running)] (lines 324-558) *)

(** The state after the iteration, the value of [running], and the
    effects of the iteration. *)
Definition frame (i : Input) (st : State)
    : option (State * bool * list effect) :=
  let running := negb (closed i) in
  let dt := deltaTime i in
  let fps := StdoutFPS (fdiv fone dt) in
  let st := day_cycle dt st in
  st ← sun_step st;
  let st := camera_keys i st in
  st ← creeper_control i st;
  st ← flee_block Steve dt st;
  st ← flee_block Pig dt st;
  '(ans, st) ← tick_animators dt (animators (myScene st)) st;
  let st := set_animators ans st in
  match steveRef st, pigRef st with
  | None, None => Some (st, false, [fps; SleepMs 3])
  | _, _ => Some (st, running, [fps])
  end.

(** How a run of the program ends: it returns from [main] or calls
    [exit], it runs into undefined behaviour, or it is still in the
    loop when the given inputs are used up. *)
Inductive outcome :=
  | Exit (status : Z) (out : list effect)
  | Undefined (out : list effect)
  | Running (st : State) (out : list effect).

(** [while (running) { ... }] followed by [return 0], on the frames the
    inputs describe. *)
Fixpoint frame_loop (inputs : list Input) (st : State) (out : list effect)
    : outcome :=
  match inputs with
  | [] => Running st out
  | i :: rest =>
      match frame i st with
      | None => Undefined out
      | Some (st', running, eff) =>
          if running : bool then frame_loop rest st' (out ++ eff)
          else Exit 0 (out ++ eff)
      end
  end.

(** *** Shaders (lines 38-64) *)

(** A failed load is reported on the standard output and ends the process
    with [exit(1)]. *)
Definition phongLightingShader : run ShaderProgram :=
  match shader_load P "shaders/light_perspective.vert"
                      "shaders/lighting.frag" 0%nat with
  | inl what => Exited 1 [Stdout ("ERROR: " +:+ what +:+ endl)]
  | inr shader => Ret shader
  end.

Definition texturingShader : run ShaderProgram :=
  match shader_load P "shaders/texture_perspective.vert"
                      "shaders/texturing.frag" 0%nat with
  | inl what => Exited 1 [Stdout ("ERROR: " +:+ what +:+ endl)]
  | inr shader => Ret shader
  end.

(** *** The scene (lines 192-253) *)

Definition gridSize : Z := 100.
Definition spacing : float := fone.

(** One cobblestone tile, laid flat: [-M_PI / 2] as a [float]. *)
Definition tile (gx gz : Z) : Object3D :=
  rotate (Vec3 (S754_finite true 13176795 (-23)) (of_Z 0) (of_Z 0))
    (move (Vec3 (fmul (of_Z gx) spacing) (dec (-15) 10)
                (fmul (of_Z gz) spacing))
          Object3D_new).

(** [-gridSize / 2 .. gridSize / 2] *)
Definition grid : list Z := seqZ (- gridSize `quot` 2) (gridSize + 1).

Definition tiles : list Object3D :=
  flat_map (fun gx => map (tile gx) grid) grid.

(** [&scene.objects.back()] *)
Definition back (l : list Object3D) : ptr := InScene (length l - 1).

(** [&o.getChild(i)] *)
Definition getChild (o : Object3D) (i : nat) : option ptr :=
  a ← m_children o; Some (InChildren a i).

(** The scene, the heap of child buffers and the four global references,
    written into the given globals. *)
Definition minecraftScene (st : State) : run State :=
  run_bind texturingShader (fun shader =>
    let objs := tiles in
    let h := heap st in
    let '(creeper, h) := assimpLoad P "models/Minecraft/Creeper.gltf" true h in
    let creeper :=
      grow (splat (dec 15 10)) (move zero3 (setName "Creeper" creeper)) in
    let '(steve, h) :=
      assimpLoad P "models/Minecraft/Steve/Steve.gltf" true h in
    let steve :=
      setOrientation (Vec3 (of_Z 0) M_PI (of_Z 0))
        (move (Vec3 (of_Z 0) (of_Z 0) (of_Z 6))
              (grow (splat (dec 1 10)) steve)) in
    let objs := objs ++ [steve] in
    let st := set_steveRef (Some (back objs)) st in
    let '(pig, h) := assimpLoad P "models/Minecraft/Pig/pig.gltf" true h in
    let pig :=
      setOrientation (Vec3 (of_Z 0) M_PI (of_Z 0))
        (move (Vec3 (of_Z 0) (of_Z 0) (of_Z (-6)))
              (grow (splat (dec 1 10)) pig)) in
    let objs := objs ++ [pig] in
    let st := set_pigRef (Some (back objs)) st in
    let sky := Object3D_new in
    let '(cloud, h) :=
      assimpLoad P "models/Minecraft/Clouds/cloud.gltf" true h in
    let '(sun, h) := assimpLoad P "models/Minecraft/sun.gltf" true h in
    let sun :=
      grow (splat (dec 3 10))
           (move (Vec3 (of_Z (-30)) (of_Z 40) (of_Z (-20))) sun) in
    let cloud :=
      grow (splat (dec 15 10))
           (move (Vec3 (of_Z (-25)) (of_Z 42) (of_Z (-22))) cloud) in
    let '(sky, h) := addChild sun sky h in
    let '(sky, h) := addChild cloud sky h in
    let objs := objs ++ [sky] in
    let st := set_sunRef (getChild sky 0) st in
    let objs := objs ++ [creeper] in
    let st := set_creeperRef (Some (back objs)) st in
    Ret (set_heap h (set_myScene (mkScene shader objs []) st))).

(** The globals as their initialisers leave them (lines 185-276). *)
Definition globals : State :=
  let cameraPos := Vec3 (of_Z 0) fone (of_Z 5) in
  mkState (mkScene 0%nat [] []) ∅ None None None None
    (of_Z 0) cameraPos (normalize (vsub cameraTarget cameraPos))
    (of_Z (-90)) (of_Z 0) (of_Z 0) (splat fone)
    (Vec3 fone (of_Z 0) (of_Z 0)) (Vec3 (of_Z (-1)) (of_Z 0) (of_Z 0)).

(** *** [main] *)

(** The working directory is printed, the scene is built (or the process
    exits), the animators are started and the frame loop runs. *)
Definition main (inputs : list Input) : outcome :=
  match minecraftScene globals with
  | Exited status out => Exit status (StdoutCwd :: out)
  | Ret st =>
      let st :=
        set_animators (map Animator_start (animators (myScene st))) st in
      frame_loop inputs st [StdoutCwd]
  end.
End Program.

(** ** The demonstration scenes (lines 78-179) *)

(** Modelled from the spec: [Animator.h] is not part of the sources; an
    animator is created empty and not started, [addAnimation] appends and
    does not start, and a [RotationAnimation] is constructed from its
    target, its duration and its total rotation, with no time elapsed. *)
Definition Animator_new : Animator := mkAnimator [] false.
Definition addAnimation (a : RotationAnimation float) (an : Animator)
    : Animator :=
  mkAnimator (m_animations an ++ [a]) (m_started an).
Definition RotationAnimation_new (target : ptr) (duration : float)
    (delta : vec3 float) : RotationAnimation float :=
  mkRotation target duration delta (of_Z 0).

(** Modelled from the spec: [getChild(index)] of [Object3D.h] with its
    precondition; the address of child [i], undefined ([None]) when the
    object has no child [i]. *)
Definition getChild_at (o : Object3D) (i : nat)
    (h : gmap addr (list Object3D)) : option ptr :=
  a ← m_children o;
  cs ← h !! a;
  if decide (i < length cs)%nat then Some (InChildren a i) else None.

(** [2 * M_PI] as a [float]. *)
Definition two_pi : float := fmul (of_Z 2) M_PI.

Section Demonstrations.
Variable P : Platform.



(** [None] when [getChild(1)] is called outside its precondition. *)
Definition lifeOfPi (h : gmap addr (list Object3D))
    : run (option (Scene * gmap addr (list Object3D))) :=
  run_bind (texturingShader P) (fun shader =>
    let '(boat, h) := assimpLoad P "models/boat/boat.fbx" true h in
    let boat := move (Vec3 (of_Z 0) (dec (-7) 10) (of_Z 0)) boat in
    let boat := grow (Vec3 (dec 1 100) (dec 1 100) (dec 1 100)) boat in
    let '(tiger, h) := assimpLoad P "models/tiger/scene.gltf" true h in
    let tiger := move (Vec3 (of_Z 0) (of_Z (-5)) (of_Z 10)) tiger in
    let '(boat, h) := addChild tiger boat h in
    let objs := [boat] in
    let animBoat :=
      addAnimation
        (RotationAnimation_new (InScene 0) (of_Z 10)
           (Vec3 (of_Z 0) two_pi (of_Z 0)))
        Animator_new in
    Ret (target ← (o ← objs !! 0%nat; getChild_at o 1 h);
         let animTiger :=
           addAnimation
             (RotationAnimation_new target (of_Z 10)
                (Vec3 (of_Z 0) (of_Z 0) two_pi))
             Animator_new in
         Some (mkScene shader objs [animBoat; animTiger], h))).
End Demonstrations.

(** * Vocabulary of the properties *)

(** The globals of two states agree (the scene and the heap may differ). *)
Definition same_globals (st st' : State) : Prop :=
  creeperRef st' = creeperRef st /\ sunRef st' = sunRef st /\
  steveRef st' = steveRef st /\ pigRef st' = pigRef st /\
  creeperYaw st' = creeperYaw st /\ cameraPos st' = cameraPos st /\
  cameraFront st' = cameraFront st /\ yaw st' = yaw st /\
  pitch st' = pitch st /\ sunTime st' = sunTime st /\
  ambientColor st' = ambientColor st /\ pigFleeDir st' = pigFleeDir st /\
  steveFleeDir st' = steveFleeDir st.

(** The state a removal leaves. *)
Definition removed (t : target) (i : nat) (prey : Object3D) (st : State)
    : State :=
  relink
    (set_targetRef t None
       (set_heap (destroy (S (size (heap st))) prey (heap st))
          (set_objects (delete i (objects (myScene st))) st))).

(** The part of the program state the pointers depend on: the object list
    ends with Steve, the pig, the sky and the Creeper, in this order, and
    the four references address them (the sun through the sky's child
    buffer at [a]). *)
Record layout (st : State) (pre : list Object3D)
    (steve pig sky creeper sun : Object3D) (clouds : list Object3D)
    (a : addr) : Prop := {
  lay_objects : objects (myScene st) = pre ++ [steve; pig; sky; creeper];
  lay_steve : steveRef st = Some (InScene (length pre));
  lay_pig : pigRef st = Some (InScene (S (length pre)));
  lay_creeper : creeperRef st = Some (InScene (length pre + 3));
  lay_sun : sunRef st = Some (InChildren a 0);
  lay_sky : m_children sky = Some a;
  lay_heap : heap st !! a = Some (sun :: clouds)
}.

(** The object a nullable reference designates. *)
Definition designates (r : option ptr) (st : State) : option Object3D :=
  p ← r; load p st.

(** A reference is redirected by a step when it designates another object
    after the step than before. *)
Definition redirected (r : State -> option ptr) (st st' : State) : Prop :=
  designates (r st') st' <> designates (r st) st.




(** * A platform and states to run the program on *)

(** Trigonometry by low-order polynomials and by quadrant, a shader
    compiler that succeeds or fails as told, and an importer that returns
    an object without children, named after its file. *)
Definition demo_platform (shaders_compile : bool) : Platform :=
  mkPlatform
    (fun t => fsub fone (fdiv (fmul t t) (of_Z 2)))
    (fun t => fsub t (fdiv (fmul (fmul t t) t) (of_Z 6)))
    (fun a b =>
       if fltb (of_Z 0) a then S754_finite false 13176795 (-23)
       else if fltb a (of_Z 0) then S754_finite true 13176795 (-23)
       else of_Z 0)
    (fun _ _ _ => if shaders_compile then inr 1%nat else inl "link failed")
    (fun path _ h => (setName path Object3D_new, h)).

(** The state in which the frame loop starts. *)
Definition demo_scene : State :=
  match minecraftScene (demo_platform true) globals with
  | Ret st => st
  | Exited _ _ => globals
  end.

(** The same with the Creeper half a unit from Steve. *)
Definition steve_caught : State :=
  default demo_scene
    (c ← creeperRef demo_scene;
     call c (setPosition (Vec3 (of_Z 0) (of_Z 0) (dec 55 10))) demo_scene).

(** A frame in which no key is held and the window stays open. *)
Definition idle (dt : float) : Input :=
  mkInput false dt false false false false false false false false.

(** The objects of the demo scene. *)
Definition demo_steve : Object3D :=
  setOrientation (Vec3 (of_Z 0) M_PI (of_Z 0))
    (move (Vec3 (of_Z 0) (of_Z 0) (of_Z 6))
       (grow (splat (dec 1 10))
          (setName "models/Minecraft/Steve/Steve.gltf" Object3D_new))).
Definition demo_pig : Object3D :=
  setOrientation (Vec3 (of_Z 0) M_PI (of_Z 0))
    (move (Vec3 (of_Z 0) (of_Z 0) (of_Z (-6)))
       (grow (splat (dec 1 10))
          (setName "models/Minecraft/Pig/pig.gltf" Object3D_new))).
Definition demo_sun : Object3D :=
  grow (splat (dec 3 10))
    (move (Vec3 (of_Z (-30)) (of_Z 40) (of_Z (-20)))
       (setName "models/Minecraft/sun.gltf" Object3D_new)).
Definition demo_cloud : Object3D :=
  grow (splat (dec 15 10))
    (move (Vec3 (of_Z (-25)) (of_Z 42) (of_Z (-22)))
       (setName "models/Minecraft/Clouds/cloud.gltf" Object3D_new)).
Definition demo_sky : Object3D := setChildren (Some 1%nat) Object3D_new.
Definition demo_creeper : Object3D :=
  grow (splat (dec 15 10)) (move zero3 (setName "Creeper" Object3D_new)).

#[global] Instance float_eq_dec : EqDecision float.
Proof. unfold float. solve_decision. Defined.
#[global] Instance vec3_eq_dec : EqDecision (vec3 float).
Proof. solve_decision. Defined.
#[global] Instance Object3D_eq_dec : EqDecision Object3D.
Proof. solve_decision. Defined.



(** The globals at second 89 of the day, the sky dark blue. *)
Definition late_night : State :=
  set_ambientColor darkBlue (set_sunTime (of_Z 89) globals).

(** A frame in which the window is closed. *)
Definition closing (dt : float) : Input :=
  mkInput true dt false false false false false false false false.

(** The scene with both fleeing-target references null. *)
Definition both_removed : State :=
  set_pigRef None (set_steveRef None demo_scene).

(** * Vocabulary of the further properties *)

(** What a step leaves alone: the four references, the flee directions,
    the clock, the number of objects and the camera angles. *)
Definition quiet (st st' : State) : Prop :=
  creeperRef st' = creeperRef st /\ sunRef st' = sunRef st
  /\ steveRef st' = steveRef st /\ pigRef st' = pigRef st
  /\ steveFleeDir st' = steveFleeDir st /\ pigFleeDir st' = pigFleeDir st
  /\ sunTime st' = sunTime st
  /\ length (objects (myScene st')) = length (objects (myScene st))
  /\ pitch st' = pitch st /\ yaw st' = yaw st.

(** The other fleeing target. *)
Definition other (t : target) : target :=
  match t with Steve => Pig | Pig => Steve end.

(** The number of fleeing targets whose reference is not null. *)
Definition alive (st : State) : nat :=
  (match steveRef st with Some _ => 1 | None => 0 end)
  + (match pigRef st with Some _ => 1 | None => 0 end).

(** How the state at the end of a run relates to the state at its start:
    the sun's reference is the same, a target's reference is the same or
    null, and the object list has lost at most one object for each target
    that was nulled. *)
Definition aged (st st' : State) : Prop :=
  sunRef st' = sunRef st
  /\ (steveRef st' = steveRef st \/ steveRef st' = None)
  /\ (pigRef st' = pigRef st \/ pigRef st' = None)
  /\ (length (objects (myScene st')) <= length (objects (myScene st)))%nat
  /\ (length (objects (myScene st)) + alive st'
      <= length (objects (myScene st')) + alive st)%nat.

(** A direction along the x axis: x is 1 or -1, y and z are zeros. *)
Definition axis_x (d : vec3 float) : Prop :=
  (x d = of_Z 1 \/ x d = of_Z (-1))
  /\ (exists s, y d = S754_zero s) /\ (exists s, z d = S754_zero s).

(** Every child handle of [o] lies in [D]. *)
Definition handles_in (D : gset addr) (o : Object3D) : Prop :=
  forall b, m_children o = Some b -> b ∈ D.

(** The buffers at the addresses of [D] hold objects whose child handles
    lie in [D]. *)
Definition closed_in (D : gset addr) (h : gmap addr (list Object3D)) : Prop :=
  forall b cs c, b ∈ D -> h !! b = Some cs -> c ∈ cs -> handles_in D c.

(** The invariant of the frame loop, for the sun's buffer [a] and a set
    [D] of buffer addresses that holds the trees of the fleeing targets:
    - the scene has no animators;
    - the hunter reference addresses an object of the list that is named
      "Creeper";
    - the sun's reference addresses the first slot of the buffer at [a],
      which is allocated and not empty;
    - the last object of the list is named "Creeper";
    - [a] lies outside [D], and [D] is closed under child handles;
    - a target reference that is not null addresses a slot before the
      last; while the other target is not null either, it addresses a slot
      before the last two, and the object there has its handles in [D]. *)
Record safe (a : addr) (D : gset addr) (st : State) : Prop := {
  safe_animators : animators (myScene st) = [];
  safe_hunter :
    exists j c, creeperRef st = Some (InScene j)
                /\ objects (myScene st) !! j = Some c
                /\ getName c = "Creeper";
  safe_sunref : sunRef st = Some (InChildren a 0);
  safe_sun : exists sun cs, heap st !! a = Some (sun :: cs);
  safe_creeper :
    exists c, last (objects (myScene st)) = Some c /\ getName c = "Creeper";
  safe_out : a ∉ D;
  safe_closed : closed_in D (heap st);
  safe_targets :
    forall t r, targetRef t st = Some r ->
      exists i, r = InScene i
        /\ (S i < length (objects (myScene st)))%nat
        /\ (targetRef (other t) st <> None ->
            (S (S i) < length (objects (myScene st)))%nat
            /\ forall o, objects (myScene st) !! i = Some o ->
                         handles_in D o)
}.

(** Both targets are gone: the loop is about to end. *)
Definition finished (st : State) : Prop :=
  steveRef st = None /\ pigRef st = None /\ animators (myScene st) = [].

(** Two objects with the same name and the same child buffer. *)
Definition same_shape (o o' : Object3D) : Prop :=
  m_name o' = m_name o /\ m_children o' = m_children o.

(** A step that only moves and turns objects of the scene's list. *)
Definition reshaped (st st' : State) : Prop :=
  animators (myScene st') = animators (myScene st)
  /\ creeperRef st' = creeperRef st /\ sunRef st' = sunRef st
  /\ steveRef st' = steveRef st /\ pigRef st' = pigRef st
  /\ heap st' = heap st
  /\ Forall2 same_shape (objects (myScene st)) (objects (myScene st')).

(** The importer returns an object whose child handles are allocated,
    frees no buffer, and leaves no handle of the heap dangling. *)
Definition well_formed_import (P : Platform) : Prop :=
  forall path flipUV h o h',
    assimpLoad P path flipUV h = (o, h') ->
    closed_in (dom h) h ->
    dom h ⊆ dom h' /\ closed_in (dom h') h' /\ handles_in (dom h') o.

(** The line an iteration writes: the frame rate. *)
Definition fps (i : Input) : effect := StdoutFPS (fdiv fone (deltaTime i)).

(** The program state in which a scene is [myScene] and the globals are as
    initialised. *)
Definition play (sc : Scene) (h : gmap addr (list Object3D)) : State :=
  set_heap h (set_myScene sc globals).

(** The children of an object. *)
Definition children (o : Object3D) (h : gmap addr (list Object3D))
    : list Object3D :=
  default [] (a ← m_children o; h !! a).

(** A floor tile: an unnamed object without children, at height -1.5,
    within the bounds of the map on both axes. *)
Definition on_map (o : Object3D) : Prop :=
  getName o = "" /\ m_children o = None
  /\ y (getPosition o) = dec (-15) 10
  /\ outside (x (getPosition o)) mapMinX mapMaxX = false
  /\ outside (z (getPosition o)) mapMinZ mapMaxZ = false.

#[global] Instance on_map_dec (o : Object3D) : Decision (on_map o).
Proof. unfold on_map. apply _. Defined.

(** The scene of the program after Steve's removal. *)
Definition steve_gone : State :=
  removed Steve (length tiles) demo_steve steve_caught.

(** The same with the Creeper half a unit from the sky object. *)
Definition sky_caught : State :=
  default steve_gone
    (c ← creeperRef steve_gone;
     call c (setPosition (Vec3 (of_Z 0) (of_Z 0) (dec 5 10))) steve_gone).

(** The demo platform with an importer that returns an object with one
    child, in a buffer of its own. *)
Definition rigged_platform : Platform :=
  mkPlatform
    (cosf (demo_platform true)) (sinf (demo_platform true))
    (atan2f (demo_platform true)) (shader_load (demo_platform true))
    (fun path _ h =>
       let a := fresh (dom h) in
       (setChildren (Some a) (setName path Object3D_new),
        <[a := [setName "part" Object3D_new]]> h)).

(** A frame in which W is held. *)
Definition looking_up (dt : float) : Input :=
  mkInput false dt true false false false false false false false.



(** * Properties *)

#[local] Arguments fadd : simpl never.
#[local] Arguments fsub : simpl never.
#[local] Arguments fmul : simpl never.
#[local] Arguments fdiv : simpl never.
#[local] Arguments fsqrt : simpl never.
#[local] Arguments fltb : simpl never.
#[local] Arguments fleb : simpl never.
#[local] Arguments fgtb : simpl never.
#[local] Arguments of_Z : simpl never.
#[local] Arguments dec : simpl never.
#[local] Arguments mix : simpl never.
#[local] Arguments length3 : simpl never.
#[local] Arguments Qc_leb : simpl never.
#[local] Arguments Qc_ltb : simpl never.
#[local] Arguments Qcplus : simpl never.
#[local] Arguments Qcminus : simpl never.
#[local] Arguments Qcmult : simpl never.
#[local] Arguments Qcdiv : simpl never.

(** ** Comparisons of binary32 values *)

Ltac cmp_cases :=
  repeat match goal with
  | |- context [Z.compare ?a ?b] => destruct (Z.compare_spec a b)
  | |- context [Pos.compare_cont Eq ?a ?b] =>
      change (Pos.compare_cont Eq a b) with (Pos.compare a b);
      destruct (Pos.compare_spec a b)
  | H : context [Z.compare ?a ?b] |- _ => destruct (Z.compare_spec a b)
  | H : context [Pos.compare_cont Eq ?a ?b] |- _ =>
      change (Pos.compare_cont Eq a b) with (Pos.compare a b) in H;
      destruct (Pos.compare_spec a b)
  end.

Ltac float_cases :=
  repeat match goal with
  | f : float |- _ => destruct f as [[]|[]| |[] ? ?]
  | f : spec_float |- _ => destruct f as [[]|[]| |[] ? ?]
  end.

(** [a <= b] excludes [b < a]. *)
Lemma fleb_not_fltb (a b : float) : fleb a b = true -> fltb b a = false.
Proof.
  unfold fleb, fltb, SFleb, SFltb.
  float_cases; simpl; try done; cmp_cases; simpl; try done; lia.
Qed.

(** [a < b] and [b <= c] exclude [c < a]. *)
Lemma fltb_fleb_not_fltb (a b c : float) :
  fltb a b = true -> fleb b c = true -> fltb c a = false.
Proof.
  unfold fleb, fltb, SFleb, SFltb.
  float_cases; simpl; try done; cmp_cases; simpl; try done; lia.
Qed.

(** [a > b] is [b < a]. *)
Lemma fgtb_fltb (a b : float) : fgtb a b = fltb b a.
Proof.
  unfold fgtb, fltb, SFltb.
  float_cases; simpl; try done; cmp_cases; simpl; try done; lia.
Qed.

(** ** The day/night clock *)

Lemma day_cycle_phase1 dt st :
  fltb (fadd (sunTime st) dt) (of_Z 30) = true ->
  day_cycle dt st =
    set_ambientColor
      (mix white orange (fdiv (fadd (sunTime st) dt) (of_Z 30)))
      (set_sunTime (fadd (sunTime st) dt) st).
Proof. intros Hlt. unfold day_cycle. cbv zeta. by rewrite Hlt. Qed.



Lemma day_cycle_wrap dt st :
  fleb (of_Z 90) (fadd (sunTime st) dt) = true ->
  day_cycle dt st = set_sunTime (of_Z 0) st.
Proof.
  intros Hge. unfold day_cycle. cbv zeta.
  rewrite (fleb_not_fltb _ _ Hge).
  rewrite (fltb_fleb_not_fltb (of_Z 30) (of_Z 90) _ eq_refl Hge).
  by rewrite (fltb_fleb_not_fltb (of_Z 60) (of_Z 90) _ eq_refl Hge).
Qed.



(** C10: on a frame where the clock (after the frame's increment) has
    reached 90 seconds, the clock is set to 0 and the ambient colour keeps
    the value of the previous frame; the blend is computed from the reset
    clock on the next frame only. *)
Theorem ambient_color_kept_on_wrap (dt : float) (st : State) :
  fleb (of_Z 90) (fadd (sunTime st) dt) = true ->
  sunTime (day_cycle dt st) = of_Z 0
  /\ ambientColor (day_cycle dt st) = ambientColor st
  /\ forall dt' : float,
       fltb (fadd (of_Z 0) dt') (of_Z 30) = true ->
       ambientColor (day_cycle dt' (day_cycle dt st))
       = mix white orange (fdiv (fadd (of_Z 0) dt') (of_Z 30)).
Proof.
  intros Hge. rewrite day_cycle_wrap by done. split_and!; try done.
  intros dt' Hlt. by rewrite day_cycle_phase1.
Qed.

Lemma ambient_color_kept_on_wrap_witness :
  sunTime (day_cycle (of_Z 2) late_night) = of_Z 0
  /\ ambientColor (day_cycle (of_Z 2) late_night) = darkBlue.
Proof.
  destruct (ambient_color_kept_on_wrap (of_Z 2) late_night)
    as (Ht & Hc & _).
  - reflexivity.
  - split; [exact Ht | exact Hc].
Defined.

(** ** Dereferencing *)

Lemma store_live (p : ptr) (o o' : Object3D) (st : State) :
  load p st = Some o ->
  exists st', store p o' st = Some st'
    /\ load p st' = Some o'
    /\ length (objects (myScene st')) = length (objects (myScene st))
    /\ same_globals st st'.
Proof.
  destruct p as [i|a i]; simpl; intros Hl.
  - apply lookup_lt_Some in Hl as Hi.
    rewrite decide_True by done. eexists; split_and!; [done|..].
    + simpl. by rewrite list_lookup_insert_eq.
    + simpl. by rewrite length_insert.
    + by repeat split.
  - destruct (heap st !! a) as [cs|] eqn:Ha; simpl in *; [|done].
    apply lookup_lt_Some in Hl as Hi.
    rewrite decide_True by done. eexists; split_and!; [done|..].
    + simpl. rewrite lookup_insert_eq. simpl.
      by rewrite list_lookup_insert_eq.
    + done.
    + by repeat split.
Qed.

Lemma call_live (p : ptr) (f : Object3D -> Object3D) (o : Object3D)
    (st : State) :
  load p st = Some o ->
  exists st', call p f st = Some st'
    /\ load p st' = Some (f o)
    /\ length (objects (myScene st')) = length (objects (myScene st))
    /\ same_globals st st'.
Proof.
  intros Hl. unfold call. rewrite Hl. simpl. by eapply store_live.
Qed.

(** ** The sun sweep *)

(** C8: when the light-source reference is bound to a live object, the
    tick sets that object's position to [(x, 40, -20)], where [x] is
    [-30 + (sunTime/60)*60], or 1000 once that value exceeds 30; the sweep
    starts at -30 for a clock of 0 and reaches +30 for a clock of 60; the
    object is moved, not removed. *)
Theorem sun_sweep (st : State) (p : ptr) (sun : Object3D) :
  sunRef st = Some p ->
  load p st = Some sun ->
  let x0 :=
    fadd (of_Z (-30)) (fmul (fdiv (sunTime st) (of_Z 60)) (of_Z 60)) in
  exists st',
    sun_step st = Some st'
    /\ load p st' =
         Some (setPosition
                 (Vec3 (if fgtb x0 (of_Z 30) then of_Z 1000 else x0)
                       (of_Z 40) (of_Z (-20))) sun)
    /\ length (objects (myScene st')) = length (objects (myScene st))
    /\ sunRef st' = Some p
    /\ sun_x (of_Z 0) = of_Z (-30)
    /\ sun_x (of_Z 30) = of_Z 0
    /\ sun_x (of_Z 60) = of_Z 30
    /\ sun_x (of_Z 61) = of_Z 1000.
Proof.
  intros Hp Hl x0. unfold sun_step. rewrite Hp.
  destruct (call_live p
    (setPosition (Vec3 (sun_x (sunTime st)) (of_Z 40) (of_Z (-20)))) sun st Hl)
    as (st' & Hc & Hl' & Hlen & Hg).
  exists st'. split_and!; try done.
  destruct Hg as (_ & Hs & _). by rewrite Hs.
Qed.

(** ** The fleeing targets *)

Lemma fleeDir_set (t : target) (v : vec3 float) (st : State) :
  fleeDir t (set_fleeDir t v st) = v.
Proof. by destruct t. Qed.

Lemma load_set_fleeDir (p : ptr) (t : target) (v : vec3 float) (st : State) :
  load p (set_fleeDir t v st) = load p st.
Proof. by destruct t, p. Qed.

Lemma same_globals_target (t : target) (st st' : State) :
  same_globals st st' ->
  targetRef t st' = targetRef t st /\ fleeDir t st' = fleeDir t st.
Proof.
  intros (_ & _ & Hs & Hp & _ & _ & _ & _ & _ & _ & _ & Hpd & Hsd).
  by destruct t.
Qed.

(** What [bounce] does to each component of the direction. *)
Lemma bounce_components (pos dir : vec3 float) (dt : float) :
  let proposedPos := propose pos dir dt in
  x (bounce pos dir dt) =
    (if outside (x proposedPos) mapMinX mapMaxX
     then fmul (x dir) (of_Z (-1)) else x dir)
  /\ y (bounce pos dir dt) = y dir
  /\ z (bounce pos dir dt) =
    (if outside (z proposedPos) mapMinZ mapMaxZ
     then fmul (z dir) (of_Z (-1)) else z dir).
Proof.
  unfold bounce. cbv zeta.
  destruct (outside (x (propose pos dir dt)) mapMinX mapMaxX),
           (outside (z (propose pos dir dt)) mapMinZ mapMaxZ); done.
Qed.

(** On each axis the committed coordinate is the first proposal when that
    lies inside the map, and otherwise the proposal recomputed with the
    component inverted once; the recomputed proposal is not tested. *)
Lemma bounce_commits (pos dir : vec3 float) (dt : float) :
  let committed := propose pos (bounce pos dir dt) dt in
  x committed =
    (if outside (x (propose pos dir dt)) mapMinX mapMaxX
     then x (propose pos (flip_x dir) dt) else x (propose pos dir dt))
  /\ z committed =
    (if outside (z (propose pos dir dt)) mapMinZ mapMaxZ
     then z (propose pos (flip_z dir) dt) else z (propose pos dir dt)).
Proof.
  destruct (bounce_components pos dir dt) as (Hbx & _ & Hbz).
  unfold propose, vadd, vscale in *. cbn [x y z] in *.
  rewrite Hbx, Hbz. clear. split; destruct (outside _ _ _); reflexivity.
Qed.

Lemma inside_without_bounce (pos dir : vec3 float) (dt : float) :
  outside (x (propose pos dir dt)) mapMinX mapMaxX = false ->
  outside (x (propose pos (bounce pos dir dt) dt)) mapMinX mapMaxX = false.
Proof.
  intros Hin. destruct (bounce_commits pos dir dt) as [Hx _].
  cbv zeta in Hx. rewrite Hx, Hin. exact Hin.
Qed.

(** The movement step on a live target. *)
Lemma flee_move_live (P : Platform) (t : target) (dt : float)
    (st : State) (r : ptr) (o : Object3D) :
  targetRef t st = Some r ->
  load r st = Some o ->
  let dir := bounce (getPosition o) (fleeDir t st) dt in
  exists st',
    flee_move P t dt st = Some st'
    /\ fleeDir t st' = dir
    /\ load r st' =
         Some (setOrientation
                 (Vec3 (of_Z 0) (atan2f P (x dir) (z dir)) (of_Z 0))
                 (setPosition (propose (getPosition o) dir dt) o))
    /\ targetRef t st' = Some r
    /\ creeperRef st' = creeperRef st
    /\ length (objects (myScene st')) = length (objects (myScene st)).
Proof.
  intros Hr Hl dir. unfold flee_move. rewrite Hr. simpl.
  rewrite Hl. simpl. fold dir.
  set (st1 := set_fleeDir t dir st).
  assert (Hl1 : load r st1 = Some o)
    by (by unfold st1; rewrite load_set_fleeDir).
  assert (Hd1 : fleeDir t st1 = dir) by apply fleeDir_set.
  destruct (call_live r
    (setPosition (propose (getPosition o) (fleeDir t st1) dt)) o st1 Hl1)
    as (st2 & Hc2 & Hl2 & Hlen2 & Hg2).
  rewrite Hc2. simpl.
  destruct (same_globals_target t _ _ Hg2) as [Hr2 Hd2].
  destruct (call_live r
    (setOrientation
       (Vec3 (of_Z 0) (atan2f P (x (fleeDir t st2)) (z (fleeDir t st2)))
             (of_Z 0))) _ st2 Hl2)
    as (st3 & Hc3 & Hl3 & Hlen3 & Hg3).
  destruct (same_globals_target t _ _ Hg3) as [Hr3 Hd3].
  exists st3. split_and!.
  - done.
  - by rewrite Hd3, Hd2.
  - rewrite Hl3, Hd2, Hd1. done.
  - rewrite Hr3, Hr2. by destruct t.
  - destruct Hg3 as (-> & _), Hg2 as (-> & _). by destruct t.
  - rewrite Hlen3, Hlen2. by destruct t.
Qed.


(** C2 fails on a long frame: a target at x = 0 that flees towards -x
    through a frame of 60 seconds is proposed x = -60, its direction is
    inverted once, and the recomputed position x = +60 is committed, which
    lies beyond [mapMaxX]. *)
Theorem long_frame_leaves_map (P : Platform) (t : target) (st : State)
    (r : ptr) (o : Object3D) :
  targetRef t st = Some r ->
  load r st = Some o ->
  x (getPosition o) = of_Z 0 ->
  x (fleeDir t st) = of_Z (-1) ->
  exists st' o',
    flee_move P t (of_Z 60) st = Some st'
    /\ load r st' = Some o'
    /\ outside (x (getPosition o)) mapMinX mapMaxX = false
    /\ x (fleeDir t st') = of_Z 1
    /\ x (getPosition o') = of_Z 60
    /\ outside (x (getPosition o')) mapMinX mapMaxX = true.
Proof.
  intros Hr Hl Hx Hd.
  destruct (bounce_components (getPosition o) (fleeDir t st) (of_Z 60))
    as (Hbx & _).
  destruct (flee_move_live P t (of_Z 60) st r o Hr Hl)
    as (st' & He & Hd' & Hl' & _).
  assert (Hflip : x (bounce (getPosition o) (fleeDir t st) (of_Z 60))
                  = of_Z 1).
  { rewrite Hbx. simpl. by rewrite Hx, Hd. }
  eexists st', _. split_and!; [done|done|..].
  - by rewrite Hx.
  - by rewrite Hd'.
  - simpl. by rewrite Hx, Hflip.
  - simpl. by rewrite Hx, Hflip.
Qed.

(** [remove_if] with the address test of the program removes the element
    of the addressed slot and no other. *)
Lemma remove_if_slot (r k : nat) (l : list Object3D) (o : Object3D) :
  (k <= r)%nat ->
  l !! (r - k)%nat = Some o ->
  remove_if (fun i => bool_decide (InScene i = InScene r)) k l
  = (delete (r - k)%nat l, [o]).
Proof.
  revert k. induction l as [|a l IH]; intros k Hk Hl; [done|].
  simpl. destruct (decide (k = r)) as [->|Hne].
  - rewrite bool_decide_eq_true_2 by done.
    replace (r - r)%nat with 0%nat in * by lia. simpl in *.
    injection Hl as ->.
    assert (Hrest : forall j m, (r < j)%nat ->
      remove_if (fun i => bool_decide (InScene i = InScene r)) j m = (m, [])).
    { intros j m. revert j. induction m as [|b m IHm]; intros j Hj; [done|].
      simpl. rewrite IHm by lia.
      rewrite bool_decide_eq_false_2; [done|]. intros [= ?]; lia. }
    by rewrite Hrest by lia.
  - rewrite bool_decide_eq_false_2 by (intros [= ?]; lia).
    replace (r - k)%nat with (S (r - S k)) in * by lia. simpl in *.
    by rewrite (IH (S k)) by (done || lia).
Qed.

Lemma find_creeper_first (l : list Object3D) (j : nat) (o : Object3D) :
  l !! j = Some o ->
  getName o = "Creeper" ->
  (forall k o', l !! k = Some o' -> (k < j)%nat -> getName o' <> "Creeper") ->
  find_creeper l = Some j.
Proof.
  intros Hj Hn Hfirst. unfold find_creeper.
  assert (H : list_find (fun o => getName o = "Creeper") l = Some (j, o)).
  { apply list_find_Some. split_and!; try done. }
  by rewrite H.
Qed.

Lemma explode_near (t : target) (st : State) (c : ptr) (i : nat)
    (hunter prey : Object3D) :
  creeperRef st = Some c ->
  targetRef t st = Some (InScene i) ->
  load c st = Some hunter ->
  objects (myScene st) !! i = Some prey ->
  fltb (length3 (vsub (getPosition hunter) (getPosition prey))) (dec 8 10)
    = true ->
  explode t st = Some (removed t i prey st).
Proof.
  intros Hc Ht Hh Hp Hd. unfold explode.
  rewrite Hc, Ht. simpl. rewrite Hh. simpl. rewrite Hp. simpl. rewrite Hd.
  pose proof (remove_if_slot i 0 (objects (myScene st)) prey
                (Nat.le_0_l i)) as Hrm.
  rewrite Nat.sub_0_r in Hrm. by rewrite (Hrm Hp).
Qed.

Lemma explode_far (t : target) (st : State) (c r : ptr)
    (hunter prey : Object3D) :
  creeperRef st = Some c ->
  targetRef t st = Some r ->
  load c st = Some hunter ->
  load r st = Some prey ->
  fltb (length3 (vsub (getPosition hunter) (getPosition prey))) (dec 8 10)
    = false ->
  explode t st = Some st.
Proof.
  intros Hc Ht Hh Hp Hd. unfold explode.
  rewrite Hc, Ht. simpl. rewrite Hh. simpl. rewrite Hp. simpl.
  by rewrite Hd.
Qed.

Lemma removed_objects (t : target) (i : nat) (prey : Object3D) (st : State) :
  objects (myScene (removed t i prey st)) = delete i (objects (myScene st)).
Proof. unfold removed, relink. destruct t; simpl; by case_match. Qed.

Lemma removed_refs (t : target) (i : nat) (prey : Object3D) (st : State) :
  targetRef t (removed t i prey st) = None
  /\ sunRef (removed t i prey st) = sunRef st
  /\ (t = Steve -> pigRef (removed t i prey st) = pigRef st)
  /\ (t = Pig -> steveRef (removed t i prey st) = steveRef st)
  /\ heap (removed t i prey st)
     = destroy (S (size (heap st))) prey (heap st)
  /\ creeperRef (removed t i prey st)
     = match find_creeper (delete i (objects (myScene st))) with
       | Some j => Some (InScene j)
       | None => creeperRef st
       end.
Proof.
  unfold removed, relink. destruct t; simpl; case_match; simpl; done.
Qed.


(** ** The scene [minecraftScene] builds *)

#[global] Opaque tiles.

(** When the shader loads, the scene has that layout. *)
Lemma minecraftScene_layout (P : Platform) (st : State) :
  minecraftScene P globals = Ret st ->
  exists steve pig sky creeper sun cloud a,
    layout st tiles steve pig sky creeper sun [cloud] a
    /\ getName creeper = "Creeper"
    /\ getName sky = "".
Proof.
  unfold minecraftScene, run_bind.
  destruct (texturingShader P) as [shader|]; [|done].
  destruct (assimpLoad P "models/Minecraft/Creeper.gltf" true _)
    as [creeper h1].
  destruct (assimpLoad P "models/Minecraft/Steve/Steve.gltf" true _)
    as [steve h2].
  destruct (assimpLoad P "models/Minecraft/Pig/pig.gltf" true _)
    as [pig h3].
  destruct (assimpLoad P "models/Minecraft/Clouds/cloud.gltf" true _)
    as [cloud h4].
  destruct (assimpLoad P "models/Minecraft/sun.gltf" true _) as [sun h5].
  unfold addChild. simpl. intros [= <-].
  do 7 eexists. split; [|split].
  1: split; simpl.
  - by rewrite <- !(assoc_L (++)).
  - unfold back. rewrite !length_app. simpl. do 2 f_equal; lia.
  - unfold back. rewrite !length_app. simpl. do 2 f_equal; lia.
  - unfold back. rewrite !length_app. simpl. do 2 f_equal; lia.
  - done.
  - done.
  - rewrite lookup_insert_eq, lookup_insert_eq. done.
  - done.
  - done.
Qed.

(** Closed decidable facts are settled by evaluation. *)
Ltac by_compute := apply (bool_decide_unpack _); vm_compute; exact I.

Lemma demo_scene_layout :
  layout demo_scene tiles demo_steve demo_pig demo_sky demo_creeper
         demo_sun [demo_cloud] 1%nat.
Proof. split; by_compute. Qed.

Lemma steve_caught_layout :
  layout steve_caught tiles demo_steve demo_pig demo_sky
         (setPosition (Vec3 (of_Z 0) (of_Z 0) (dec 55 10)) demo_creeper)
         demo_sun [demo_cloud] 1%nat.
Proof. split; by_compute. Qed.

(** ** References after a removal *)

Lemma removal_of_steve (st : State) (pre : list Object3D)
    (steve pig sky creeper sun : Object3D) (clouds : list Object3D)
    (a : addr) :
  layout st pre steve pig sky creeper sun clouds a ->
  getName creeper = "Creeper" ->
  Forall (fun o => getName o <> "Creeper") (pre ++ [pig; sky]) ->
  destroy (S (size (heap st))) steve (heap st) !! a = Some (sun :: clouds) ->
  let st' := removed Steve (length pre) steve st in
  objects (myScene st') = pre ++ [pig; sky; creeper]
  /\ steveRef st' = None
  /\ pigRef st' = Some (InScene (S (length pre)))
  /\ sunRef st' = Some (InChildren a 0)
  /\ creeperRef st' = Some (InScene (length pre + 2))
  /\ load (InScene (S (length pre))) st' = Some sky
  /\ load (InChildren a 0) st' = Some sun
  /\ load (InScene (length pre + 2)) st' = Some creeper.
Proof.
  intros [Hobjs Hs Hp Hc Hsun Hsky Hheap] Hname Hothers Hkeep st'.
  destruct (removed_refs Steve (length pre) steve st)
    as (Hnull & Hsun' & Hpig' & _ & Hheap' & Hcr).
  fold st' in Hnull, Hsun', Hpig', Hheap', Hcr.
  assert (Hobjs' : objects (myScene st') = pre ++ [pig; sky; creeper]).
  { unfold st'. rewrite removed_objects, Hobjs. apply delete_middle. }
  assert (Hfind : find_creeper (pre ++ [pig; sky; creeper])
                  = Some (length pre + 2)%nat).
  { apply (find_creeper_first _ _ creeper); [|done|].
    - rewrite lookup_app_r by lia.
      by replace (length pre + 2 - length pre)%nat with 2%nat by lia.
    - intros k o' Hk Hlt. rewrite Forall_lookup in Hothers.
      apply (Hothers k).
      destruct (decide (k < length pre)%nat) as [Hin|Hout].
      + rewrite lookup_app_l in Hk by done. by rewrite lookup_app_l.
      + rewrite lookup_app_r in Hk by lia. rewrite lookup_app_r by lia.
        destruct (k - length pre)%nat as [|[|n]] eqn:Hn; [done|done|lia]. }
  rewrite Hobjs in Hcr. rewrite delete_middle, Hfind in Hcr.
  split_and!; try done.
  - by rewrite Hpig', Hp.
  - by rewrite Hsun', Hsun.
  - simpl. rewrite Hobjs', lookup_app_r by lia.
    by replace (S (length pre) - length pre)%nat with 1%nat by lia.
  - simpl. by rewrite Hheap', Hkeep.
  - simpl. rewrite Hobjs', lookup_app_r by lia.
    by replace (length pre + 2 - length pre)%nat with 2%nat by lia.
Qed.

Lemma layout_loads (st : State) (pre : list Object3D)
    (steve pig sky creeper sun : Object3D) (clouds : list Object3D)
    (a : addr) :
  layout st pre steve pig sky creeper sun clouds a ->
  objects (myScene st) !! length pre = Some steve
  /\ designates (pigRef st) st = Some pig
  /\ designates (sunRef st) st = Some sun
  /\ designates (creeperRef st) st = Some creeper.
Proof.
  intros [Hobjs Hs Hp Hc Hsun Hsky Hheap]. unfold designates.
  rewrite Hp, Hsun, Hc. simpl. rewrite Hobjs, Hheap. simpl.
  rewrite !lookup_app_r by lia.
  replace (length pre - length pre)%nat with 0%nat by lia.
  replace (S (length pre) - length pre)%nat with 1%nat by lia.
  by replace (length pre + 3 - length pre)%nat with 3%nat by lia.
Qed.

Lemma removal_of_pig (st : State) (pre : list Object3D)
    (steve pig sky creeper sun : Object3D) (clouds : list Object3D)
    (a : addr) :
  layout st pre steve pig sky creeper sun clouds a ->
  getName creeper = "Creeper" ->
  Forall (fun o => getName o <> "Creeper") (pre ++ [steve; sky]) ->
  destroy (S (size (heap st))) pig (heap st) !! a = Some (sun :: clouds) ->
  let st' := removed Pig (S (length pre)) pig st in
  objects (myScene st') = pre ++ [steve; sky; creeper]
  /\ pigRef st' = None
  /\ steveRef st' = Some (InScene (length pre))
  /\ sunRef st' = Some (InChildren a 0)
  /\ creeperRef st' = Some (InScene (length pre + 2))
  /\ load (InScene (length pre)) st' = Some steve
  /\ load (InChildren a 0) st' = Some sun
  /\ load (InScene (length pre + 2)) st' = Some creeper.
Proof.
  intros [Hobjs Hs Hp Hc Hsun Hsky Hheap] Hname Hothers Hkeep st'.
  destruct (removed_refs Pig (S (length pre)) pig st)
    as (Hnull & Hsun' & _ & Hsteve' & Hheap' & Hcr).
  fold st' in Hnull, Hsun', Hsteve', Hheap', Hcr.
  assert (Hdel : delete (S (length pre)) (objects (myScene st))
                 = pre ++ [steve; sky; creeper]).
  { rewrite Hobjs.
    replace (pre ++ [steve; pig; sky; creeper])
      with ((pre ++ [steve]) ++ pig :: [sky; creeper])
      by (by rewrite <- (assoc_L (++))).
    replace (S (length pre)) with (length (pre ++ [steve]))
      by (rewrite length_app; simpl; lia).
    rewrite delete_middle. by rewrite <- (assoc_L (++)). }
  assert (Hobjs' : objects (myScene st') = pre ++ [steve; sky; creeper]).
  { unfold st'. by rewrite removed_objects. }
  assert (Hfind : find_creeper (pre ++ [steve; sky; creeper])
                  = Some (length pre + 2)%nat).
  { apply (find_creeper_first _ _ creeper); [|done|].
    - rewrite lookup_app_r by lia.
      by replace (length pre + 2 - length pre)%nat with 2%nat by lia.
    - intros k o' Hk Hlt. rewrite Forall_lookup in Hothers.
      apply (Hothers k).
      destruct (decide (k < length pre)%nat) as [Hin|Hout].
      + rewrite lookup_app_l in Hk by done. by rewrite lookup_app_l.
      + rewrite lookup_app_r in Hk by lia. rewrite lookup_app_r by lia.
        destruct (k - length pre)%nat as [|[|n]] eqn:Hn; [done|done|lia]. }
  rewrite Hdel, Hfind in Hcr.
  split_and!; try done.
  - by rewrite (Hsteve' eq_refl), Hs.
  - by rewrite Hsun', Hsun.
  - simpl. rewrite Hobjs', lookup_app_r by lia.
    by replace (length pre - length pre)%nat with 0%nat by lia.
  - simpl. by rewrite Hheap', Hkeep.
  - simpl. rewrite Hobjs', lookup_app_r by lia.
    by replace (length pre + 2 - length pre)%nat with 2%nat by lia.
Qed.

(** C7 (amended): when a fleeing target is removed from the scene of the
    program, only the hunter reference is re-bound; the references to the
    other target and to the sun keep their values.  Every object behind
    the removed one moves one slot towards the front: after Steve's removal
    the pig's reference designates the sky, while after the pig's removal
    Steve's reference, which addresses an earlier slot, still designates
    Steve.  The sun's reference addresses the sky's child buffer, which
    moves with the sky: it still designates the sun. *)
Theorem stale_references_after_removal (st : State) (pre : list Object3D)
    (steve pig sky creeper sun : Object3D) (clouds : list Object3D)
    (a : addr) :
  layout st pre steve pig sky creeper sun clouds a ->
  getName creeper = "Creeper" ->
  Forall (fun o => getName o <> "Creeper") (pre ++ [steve; pig; sky]) ->
  (destroy (S (size (heap st))) steve (heap st) !! a = Some (sun :: clouds) ->
   fltb (length3 (vsub (getPosition creeper) (getPosition steve))) (dec 8 10)
     = true ->
   exists st',
     explode Steve st = Some st'
     /\ steveRef st' = None
     /\ creeperRef st' = Some (InScene (length pre + 2))
     /\ designates (creeperRef st') st' = Some creeper
     /\ pigRef st' = pigRef st
     /\ sunRef st' = sunRef st
     /\ (forall j, (length pre <= j)%nat ->
           objects (myScene st') !! j = objects (myScene st) !! S j)
     /\ designates (pigRef st) st = Some pig
     /\ designates (pigRef st') st' = Some sky
     /\ designates (sunRef st) st = Some sun
     /\ designates (sunRef st') st' = Some sun)
  /\ (destroy (S (size (heap st))) pig (heap st) !! a = Some (sun :: clouds) ->
      fltb (length3 (vsub (getPosition creeper) (getPosition pig))) (dec 8 10)
        = true ->
      exists st',
        explode Pig st = Some st'
        /\ pigRef st' = None
        /\ creeperRef st' = Some (InScene (length pre + 2))
        /\ designates (creeperRef st') st' = Some creeper
        /\ steveRef st' = steveRef st
        /\ sunRef st' = sunRef st
        /\ designates (steveRef st') st' = Some steve
        /\ designates (sunRef st') st' = Some sun).
Proof.
  intros Hlay Hname Hothers.
  destruct (layout_loads _ _ _ _ _ _ _ _ _ Hlay)
    as (Hsteve & Hpig & Hsun & Hcr).
  pose proof Hlay as [Hobjs Hs Hp Hc Hsunr Hsky Hheap].
  assert (Hhunter : load (InScene (length pre + 3)) st = Some creeper).
  { simpl. rewrite Hobjs, lookup_app_r by lia.
    by replace (length pre + 3 - length pre)%nat with 3%nat by lia. }
  apply Forall_app in Hothers as [Hpre Hlast].
  apply Forall_cons in Hlast as [Hns Hlast].
  apply Forall_cons in Hlast as [Hnp Hlast].
  split; intros Hkeep Hnear.
  - destruct (removal_of_steve _ _ _ _ _ _ _ _ _ Hlay Hname) as
      (Hobjs' & Hs' & Hp' & Hsun' & Hc' & Hlp & Hls & Hlc); [|done|].
    { apply Forall_app. split; [done|]. by apply Forall_cons. }
    exists (removed Steve (length pre) steve st). split_and!; try done.
    + by eapply explode_near.
    + by rewrite Hc'.
    + by rewrite Hp', Hp.
    + by rewrite Hsun', Hsunr.
    + intros j Hj. rewrite removed_objects. by apply list_lookup_delete_ge.
    + by rewrite Hp'.
    + by rewrite Hsun'.
  - destruct (removal_of_pig _ _ _ _ _ _ _ _ _ Hlay Hname) as
      (Hobjs' & Hp' & Hs' & Hsun' & Hc' & Hlst & Hls & Hlc); [|done|].
    { apply Forall_app. split; [done|]. by apply Forall_cons. }
    exists (removed Pig (S (length pre)) pig st). split_and!; try done.
    + eapply explode_near; try done.
      rewrite Hobjs, lookup_app_r by lia.
      by replace (S (length pre) - length pre)%nat with 1%nat by lia.
    + by rewrite Hc'.
    + by rewrite Hs', Hs.
    + by rewrite Hsun', Hsunr.
    + by rewrite Hs'.
    + by rewrite Hsun'.
Qed.

Lemma stale_references_after_removal_witness :
  exists st',
    explode Steve steve_caught = Some st'
    /\ pigRef st' = pigRef steve_caught
    /\ designates (pigRef steve_caught) steve_caught = Some demo_pig
    /\ designates (pigRef st') st' = Some demo_sky
    /\ designates (sunRef st') st' = Some demo_sun.
Proof.
  destruct (stale_references_after_removal steve_caught tiles demo_steve
              demo_pig demo_sky
              (setPosition (Vec3 (of_Z 0) (of_Z 0) (dec 55 10)) demo_creeper)
              demo_sun [demo_cloud] 1%nat)
    as [Hsteve _].
  - exact steve_caught_layout.
  - reflexivity.
  - by_compute.
  - destruct Hsteve
      as (st' & He & _ & _ & _ & Hp & _ & _ & Hpig & Hsky & _ & Hsun).
    + by_compute.
    + by_compute.
    + exists st'. exact (conj He (conj Hp (conj Hpig (conj Hsky Hsun)))).
Defined.

(** C7 as stated fails for the sun: with the Creeper next to Steve in the
    scene of the program, Steve is removed and the light-source reference
    designates the same object as before. *)
Lemma sun_reference_not_redirected :
  exists st',
    explode Steve steve_caught = Some st'
    /\ ~ redirected sunRef steve_caught st'.
Proof.
  pose proof steve_caught_layout as Hlay.
  destruct (layout_loads _ _ _ _ _ _ _ _ _ Hlay) as (Hsteve & _ & Hsun & Hcr).
  destruct (removal_of_steve _ _ _ _ _ _ _ _ _ Hlay) as
    (_ & _ & _ & Hsun' & _ & _ & Hls & _); [done|by_compute|by_compute|].
  exists (removed Steve (length tiles) demo_steve steve_caught). split.
  - unfold designates in Hcr. rewrite (lay_creeper _ _ _ _ _ _ _ _ _ Hlay) in Hcr.
    eapply explode_near.
    + exact (lay_creeper _ _ _ _ _ _ _ _ _ Hlay).
    + exact (lay_steve _ _ _ _ _ _ _ _ _ Hlay).
    + exact Hcr.
    + exact Hsteve.
    + by_compute.
  - unfold redirected. rewrite Hsun. unfold designates.
    rewrite Hsun'. intros Hne. apply Hne. exact Hls.
Qed.

(** ** The theorems on the scene of the program *)



Lemma sun_sweep_witness :
  exists st',
    sun_step demo_scene = Some st'
    /\ load (InChildren 1%nat 0) st'
       = Some (setPosition (Vec3 (of_Z (-30)) (of_Z 40) (of_Z (-20)))
                           demo_sun).
Proof.
  pose proof demo_scene_layout as Hlay.
  destruct (layout_loads _ _ _ _ _ _ _ _ _ Hlay) as (_ & _ & Hsun & _).
  unfold designates in Hsun.
  rewrite (lay_sun _ _ _ _ _ _ _ _ _ Hlay) in Hsun.
  destruct (sun_sweep demo_scene (InChildren 1%nat 0) demo_sun
              (lay_sun _ _ _ _ _ _ _ _ _ Hlay) Hsun)
    as (st' & He & Hl & _).
  exists st'. refine (conj He _).
  rewrite Hl. by_compute.
Defined.

Lemma long_frame_leaves_map_witness :
  exists st' steve',
    flee_move (demo_platform true) Steve (of_Z 60) demo_scene = Some st'
    /\ load (InScene (length tiles)) st' = Some steve'
    /\ x (getPosition steve') = of_Z 60
    /\ outside (x (getPosition steve')) mapMinX mapMaxX = true.
Proof.
  pose proof demo_scene_layout as Hlay.
  destruct (layout_loads _ _ _ _ _ _ _ _ _ Hlay) as (Hsteve & _).
  destruct (long_frame_leaves_map (demo_platform true) Steve demo_scene
              (InScene (length tiles)) demo_steve
              (lay_steve _ _ _ _ _ _ _ _ _ Hlay) Hsteve)
    as (st' & o' & He & Hl & _ & _ & Hx & Hout).
  - reflexivity.
  - by_compute.
  - exists st', o'. exact (conj He (conj Hl (conj Hx Hout))).
Defined.

(** ** Shaders and the end of the program *)

Lemma minecraftScene_cases (P : Platform) (st : State) :
  match texturingShader P with
  | Exited status out => minecraftScene P st = Exited status out
  | Ret shader =>
      exists st', minecraftScene P st = Ret st'
                  /\ program (myScene st') = shader
  end.
Proof.
  unfold minecraftScene, run_bind.
  destruct (texturingShader P) as [shader|]; [|done].
  repeat match goal with
  | |- context [assimpLoad P ?a ?b ?c] => destruct (assimpLoad P a b c)
  end.
  unfold addChild. simpl. by eexists.
Qed.

Lemma frame_loop_exit (P : Platform) (inputs : list Input) (st : State)
    (out out' : list effect) (status : Z) :
  frame_loop P inputs st out = Exit status out' -> status = 0.
Proof.
  revert st out. induction inputs as [|i rest IH]; intros st out; [done|].
  simpl. destruct (frame P i st) as [[[st' running] eff]|]; [|done].
  destruct running; [apply IH|]. by intros [= <- _].
Qed.

(** The flag and the effects with which an iteration ends. *)
Lemma frame_end (P : Platform) (i : Input) (st st' : State)
    (running : bool) (eff : list effect) :
  frame P i st = Some (st', running, eff) ->
  match steveRef st', pigRef st' with
  | None, None =>
      running = false
      /\ eff = [StdoutFPS (fdiv fone (deltaTime i)); SleepMs 3]
  | _, _ =>
      running = negb (closed i)
      /\ eff = [StdoutFPS (fdiv fone (deltaTime i))]
  end.
Proof.
  unfold frame. intros Hf. simplify_option_eq.
  repeat case_match; simplify_eq; simpl in *; try done; congruence.
Qed.

(** C9: when loading the shader throws a runtime error, the message is
    written to the standard output after "ERROR: " and the process exits
    with status 1: [main] then ends before any frame, whatever the inputs;
    when loading succeeds the loaded program is returned as it is and
    becomes the program of the scene. *)
Theorem shader_failure_exits (P : Platform) :
  (forall what,
     shader_load P "shaders/texture_perspective.vert"
                   "shaders/texturing.frag" 0%nat = inl what ->
     texturingShader P = Exited 1 [Stdout ("ERROR: " +:+ what +:+ endl)]
     /\ forall inputs,
          main P inputs
          = Exit 1 [StdoutCwd; Stdout ("ERROR: " +:+ what +:+ endl)])
  /\ (forall shader,
        shader_load P "shaders/texture_perspective.vert"
                      "shaders/texturing.frag" 0%nat = inr shader ->
        texturingShader P = Ret shader
        /\ exists st, minecraftScene P globals = Ret st
                      /\ program (myScene st) = shader)
  /\ (forall what,
        shader_load P "shaders/light_perspective.vert"
                      "shaders/lighting.frag" 0%nat = inl what ->
        phongLightingShader P
        = Exited 1 [Stdout ("ERROR: " +:+ what +:+ endl)])
  /\ (forall shader,
        shader_load P "shaders/light_perspective.vert"
                      "shaders/lighting.frag" 0%nat = inr shader ->
        phongLightingShader P = Ret shader).
Proof.
  split_and!.
  - intros what Hload.
    assert (Ht : texturingShader P
                 = Exited 1 [Stdout ("ERROR: " +:+ what +:+ endl)])
      by (unfold texturingShader; by rewrite Hload).
    split; [done|]. intros inputs. unfold main.
    pose proof (minecraftScene_cases P globals) as Hm.
    rewrite Ht in Hm. by rewrite Hm.
  - intros shader Hload.
    assert (Ht : texturingShader P = Ret shader)
      by (unfold texturingShader; by rewrite Hload).
    split; [done|].
    pose proof (minecraftScene_cases P globals) as Hm.
    by rewrite Ht in Hm.
  - intros what Hload. unfold phongLightingShader. by rewrite Hload.
  - intros shader Hload. unfold phongLightingShader. by rewrite Hload.
Qed.

Lemma shader_failure_exits_witness :
  main (demo_platform false) [idle (dec 1 60); closing (dec 1 60)]
  = Exit 1 [StdoutCwd; Stdout ("ERROR: " +:+ "link failed" +:+ endl)].
Proof.
  destruct (shader_failure_exits (demo_platform false)) as (Hfail & _).
  destruct (Hfail "link failed") as [_ Hmain]; [reflexivity|].
  exact (Hmain [idle (dec 1 60); closing (dec 1 60)]).
Defined.

(** C6: an iteration that ends with both fleeing-target references null
    sleeps 3 milliseconds and leaves the loop, and the process returns 0;
    an iteration that polled a [Closed] event leaves the loop as well, and
    the process returns 0; a process that ends with another status ends
    with status 1, and the shader failed to load. *)
Theorem loop_ends_with_status (P : Platform) :
  (forall i st st' running eff,
     frame P i st = Some (st', running, eff) ->
     steveRef st' = None -> pigRef st' = None ->
     running = false
     /\ last eff = Some (SleepMs 3)
     /\ forall rest out,
          frame_loop P (i :: rest) st out = Exit 0 (out ++ eff))
  /\ (forall i st st' running eff,
        frame P i st = Some (st', running, eff) ->
        closed i = true ->
        running = false
        /\ forall rest out,
             frame_loop P (i :: rest) st out = Exit 0 (out ++ eff))
  /\ (forall inputs status out,
        main P inputs = Exit status out ->
        status = 0
        \/ (status = 1
            /\ exists what,
                 shader_load P "shaders/texture_perspective.vert"
                               "shaders/texturing.frag" 0%nat = inl what)).
Proof.
  split_and!.
  - intros i st st' running eff Hf Hs Hp.
    pose proof (frame_end P i st st' running eff Hf) as He.
    rewrite Hs, Hp in He. destruct He as [-> ->].
    split_and!; [done|done|]. intros rest out. simpl. by rewrite Hf.
  - intros i st st' running eff Hf Hc.
    pose proof (frame_end P i st st' running eff Hf) as He.
    assert (Hr : running = false).
    { rewrite Hc in He. repeat case_match; by destruct He. }
    split; [done|]. intros rest out. simpl. by rewrite Hf, Hr.
  - intros inputs status out. unfold main.
    pose proof (minecraftScene_cases P globals) as Hm.
    unfold texturingShader in Hm.
    destruct (shader_load P _ _ _) as [what|shader] eqn:Hload.
    + rewrite Hm. intros [= <- _]. right. split; [done|]. by exists what.
    + destruct Hm as (st & -> & _). intros Hloop. left.
      by eapply frame_loop_exit.
Qed.

(** ** The rotation animation *)











Lemma loop_ends_with_status_witness :
  (exists eff,
     frame_loop (demo_platform true) [closing (dec 1 60)] demo_scene
                [StdoutCwd]
     = Exit 0 ([StdoutCwd] ++ eff))
  /\ (exists eff,
        last eff = Some (SleepMs 3)
        /\ frame_loop (demo_platform true)
                      [idle (dec 1 60); idle (dec 1 60)] both_removed
                      [StdoutCwd]
           = Exit 0 ([StdoutCwd] ++ eff)).
Proof.
  destruct (loop_ends_with_status (demo_platform true))
    as (Hnull & Hclose & _).
  split.
  - destruct (frame (demo_platform true) (closing (dec 1 60)) demo_scene)
      as [[[st' running] eff]|] eqn:Hf.
    + destruct (Hclose _ _ _ _ _ Hf eq_refl) as [_ Hloop].
      exists eff. apply Hloop.
    + exfalso.
      assert (Hs : is_Some (frame (demo_platform true) (closing (dec 1 60))
                                  demo_scene)) by by_compute.
      rewrite Hf in Hs. by destruct Hs.
  - destruct (frame (demo_platform true) (idle (dec 1 60)) both_removed)
      as [[[st' running] eff]|] eqn:Hf.
    + assert (Hrefs : steveRef st' = None /\ pigRef st' = None).
      { assert (Hc : (r ← frame (demo_platform true) (idle (dec 1 60))
                                both_removed;
                      Some (steveRef r.1.1, pigRef r.1.1))
                     = Some (None, None)) by by_compute.
        rewrite Hf in Hc. simpl in Hc. by injection Hc as -> ->. }
      destruct Hrefs as [Hs Hp].
      destruct (Hnull _ _ _ _ _ Hf Hs Hp) as (_ & Hlast & Hloop).
      exists eff. split; [exact Hlast|apply Hloop].
    + exfalso.
      assert (Hs : is_Some (frame (demo_platform true) (idle (dec 1 60))
                                  both_removed)) by by_compute.
      rewrite Hf in Hs. by destruct Hs.
Defined.

(** * Further properties *)

#[local] Arguments destroy : simpl never.
#[local] Arguments radians : simpl never.

(** ** What the steps of an iteration leave alone *)

Lemma quiet_refl st : quiet st st.
Proof. by repeat split. Qed.

Lemma quiet_trans st1 st2 st3 : quiet st1 st2 -> quiet st2 st3 -> quiet st1 st3.
Proof.
  unfold quiet. intros (?&?&?&?&?&?&?&?&?&?) (?&?&?&?&?&?&?&?&?&?).
  split_and!; congruence.
Qed.

Lemma store_quiet p o st st' : store p o st = Some st' -> quiet st st'.
Proof.
  destruct p as [i|a i]; simpl; intros Hs.
  - case_decide; [|done]. injection Hs as <-. unfold quiet.
    split_and!; try done. simpl. by rewrite length_insert.
  - destruct (heap st !! a) as [cs|]; simpl in Hs; [|done].
    case_decide; [|done]. injection Hs as <-. by repeat split.
Qed.

Lemma call_quiet p f st st' : call p f st = Some st' -> quiet st st'.
Proof.
  unfold call. intros Hc. destruct (load p st); simpl in Hc; [|done].
  by eapply store_quiet.
Qed.

Lemma sun_step_quiet st st' : sun_step st = Some st' -> quiet st st'.
Proof.
  unfold sun_step. destruct (sunRef st); [apply call_quiet|].
  intros [= <-]. apply quiet_refl.
Qed.

Lemma steer_quiet P c held dir dt st st' :
  steer P c held dir dt st = Some st' -> quiet st st'.
Proof.
  unfold steer. destruct held; [|intros [= <-]; apply quiet_refl].
  intros Hs. destruct (call c _ st) as [st1|] eqn:H1; simpl in Hs; [|done].
  apply call_quiet in H1. apply call_quiet in Hs.
  eapply quiet_trans; [exact H1|]. eapply quiet_trans; [|exact Hs].
  by repeat split.
Qed.

Lemma creeper_control_quiet P i st st' :
  creeper_control P i st = Some st' -> quiet st st'.
Proof.
  unfold creeper_control. destruct (creeperRef st) as [c|];
    [|intros [= <-]; apply quiet_refl].
  intros Hc. destruct (load c st); simpl in Hc; [|done].
  destruct (steer P c (keyUp i) _ _ st) as [s1|] eqn:H1; simpl in Hc; [|done].
  destruct (steer P c (keyDown i) _ _ s1) as [s2|] eqn:H2; simpl in Hc; [|done].
  destruct (steer P c (keyLeft i) _ _ s2) as [s3|] eqn:H3; simpl in Hc; [|done].
  destruct (steer P c (keyRight i) _ _ s3) as [s4|] eqn:H4; simpl in Hc; [|done].
  injection Hc as <-.
  apply steer_quiet in H1, H2, H3, H4.
  eapply quiet_trans; [exact H1|]. eapply quiet_trans; [exact H2|].
  eapply quiet_trans; [exact H3|]. eapply quiet_trans; [exact H4|].
  by repeat split.
Qed.

Lemma tick_animations_quiet dt l st l' st' :
  tick_animations dt l st = Some (l', st') -> quiet st st'.
Proof.
  revert st l' st'. induction l as [|a l IH]; intros st l' st' Ht; simpl in Ht.
  - injection Ht as <- <-. apply quiet_refl.
  - destruct (load (ra_target a) st) as [o|]; simpl in Ht; [|done].
    destruct (store _ _ st) as [s1|] eqn:Hs; simpl in Ht; [|done].
    destruct (tick_animations dt l s1) as [[l1 s2]|] eqn:Hr;
      simpl in Ht; [|done].
    injection Ht as <- <-.
    eapply quiet_trans; [by eapply store_quiet|by eapply IH].
Qed.

Lemma tick_animators_quiet dt l st l' st' :
  tick_animators dt l st = Some (l', st') -> quiet st st'.
Proof.
  revert st l' st'. induction l as [|a l IH]; intros st l' st' Ht; simpl in Ht.
  - injection Ht as <- <-. apply quiet_refl.
  - destruct (tick_animations dt _ st) as [[as1 s1]|] eqn:Ha;
      simpl in Ht; [|done].
    destruct (tick_animators dt l s1) as [[l1 s2]|] eqn:Hr;
      simpl in Ht; [|done].
    injection Ht as <- <-.
    eapply quiet_trans; [by eapply tick_animations_quiet|by eapply IH].
Qed.

(** The movement step changes the direction of its target and nothing
    else of what [quiet] lists. *)
Lemma flee_move_footprint P t dt st st' :
  flee_move P t dt st = Some st' ->
  creeperRef st' = creeperRef st /\ sunRef st' = sunRef st
  /\ steveRef st' = steveRef st /\ pigRef st' = pigRef st
  /\ sunTime st' = sunTime st
  /\ length (objects (myScene st')) = length (objects (myScene st))
  /\ fleeDir (other t) st' = fleeDir (other t) st
  /\ exists o, (r ← targetRef t st; load r st) = Some o
       /\ fleeDir t st' = bounce (getPosition o) (fleeDir t st) dt.
Proof.
  unfold flee_move. intros Hm.
  destruct (targetRef t st) as [r|]; simpl in Hm; [|done].
  destruct (load r st) as [o|] eqn:Hlo; simpl in *; [|done].
  destruct (call r _ (set_fleeDir t _ st)) as [s1|] eqn:H1;
    simpl in Hm; [|done].
  apply call_quiet in H1. apply call_quiet in Hm.
  pose proof (quiet_trans _ _ _ H1 Hm)
    as (Hc & Hsn & Hs & Hp & Hsd & Hpd & Ht & Hl & _).
  destruct t; simpl in *; split_and!; try done; by exists o.
Qed.

Lemma remove_if_none (p : nat -> bool) (k : nat) (l : list Object3D) :
  (forall j, (k <= j < k + length l)%nat -> p j = false) ->
  remove_if p k l = (l, []).
Proof.
  revert k. induction l as [|o l IH]; intros k Hp; [done|].
  simpl in *. rewrite IH by (intros j Hj; apply Hp; lia).
  by rewrite Hp by lia.
Qed.

(** The address test matches at most one slot: the erase drops at most one
    element and keeps the rest. *)
Lemma remove_if_address (r : ptr) (l : list Object3D) :
  (length (remove_if (fun i => bool_decide (InScene i = r)) 0 l).1
   + length (remove_if (fun i => bool_decide (InScene i = r)) 0 l).2
   = length l)%nat
  /\ (length (remove_if (fun i => bool_decide (InScene i = r)) 0 l).2 <= 1)%nat.
Proof.
  destruct r as [i|a i].
  - destruct (l !! i) as [o|] eqn:Hi.
    + pose proof (remove_if_slot i 0 l o (Nat.le_0_l i)) as Hrm.
      rewrite Nat.sub_0_r in Hrm. rewrite (Hrm Hi). simpl.
      rewrite length_delete by by eexists.
      apply lookup_lt_Some in Hi. lia.
    + rewrite remove_if_none; [simpl; lia|].
      intros j Hj. apply bool_decide_eq_false_2. intros [= ->].
      apply lookup_ge_None in Hi. lia.
  - rewrite remove_if_none; [simpl; lia|].
    intros j _. by apply bool_decide_eq_false_2.
Qed.

Lemma relink_footprint st :
  sunRef (relink st) = sunRef st /\ steveRef (relink st) = steveRef st
  /\ pigRef (relink st) = pigRef st
  /\ steveFleeDir (relink st) = steveFleeDir st
  /\ pigFleeDir (relink st) = pigFleeDir st
  /\ sunTime (relink st) = sunTime st
  /\ objects (myScene (relink st)) = objects (myScene st)
  /\ heap (relink st) = heap st.
Proof. unfold relink. by destruct (find_creeper _). Qed.

(** The removal step either changes nothing of the references and the
    list, or nulls the reference of its target and erases at most one
    object; it touches neither the sun's reference, nor the other target's,
    nor the directions or the clock. *)
Lemma explode_footprint t st st' :
  explode t st = Some st' ->
  sunRef st' = sunRef st
  /\ targetRef (other t) st' = targetRef (other t) st
  /\ steveFleeDir st' = steveFleeDir st /\ pigFleeDir st' = pigFleeDir st
  /\ sunTime st' = sunTime st
  /\ ((targetRef t st' = targetRef t st
       /\ length (objects (myScene st')) = length (objects (myScene st)))
      \/ (targetRef t st' = None /\ targetRef t st <> None
          /\ (length (objects (myScene st'))
              <= length (objects (myScene st)))%nat
          /\ (length (objects (myScene st))
              <= S (length (objects (myScene st'))))%nat)).
Proof.
  unfold explode. intros He.
  destruct (creeperRef st) as [c|]; simpl in He; [|done].
  destruct (targetRef t st) as [r|] eqn:Hr; simpl in He; [|done].
  destruct (load c st) as [hunter|]; simpl in He; [|done].
  destruct (load r st) as [prey|]; simpl in He; [|done].
  destruct (fltb _ _).
  - pose proof (remove_if_address r (objects (myScene st))) as [Hlen Hone].
    destruct (remove_if _ 0 _) as [kept gone]. simpl in Hlen, Hone.
    cbv beta iota zeta in He. injection He as <-.
    destruct (relink_footprint
      (set_targetRef t None
         (set_heap (foldr (destroy (S (size (heap st)))) (heap st) gone)
            (set_objects kept st))))
      as (-> & Hs & Hp & -> & -> & -> & Ho & _).
    rewrite Ho.
    destruct t; simpl in *; rewrite ?Hs, ?Hp; split_and!; auto;
      right; split_and!; auto; lia.
  - injection He as <-. rewrite Hr. split_and!; auto.
Qed.

Lemma flee_block_footprint P t dt st st' :
  flee_block P t dt st = Some st' ->
  sunRef st' = sunRef st
  /\ targetRef (other t) st' = targetRef (other t) st
  /\ sunTime st' = sunTime st
  /\ fleeDir (other t) st' = fleeDir (other t) st
  /\ (fleeDir t st' = fleeDir t st
      \/ exists pos, fleeDir t st' = bounce pos (fleeDir t st) dt)
  /\ ((targetRef t st' = targetRef t st
       /\ length (objects (myScene st')) = length (objects (myScene st)))
      \/ (targetRef t st' = None /\ targetRef t st <> None
          /\ (length (objects (myScene st'))
              <= length (objects (myScene st)))%nat
          /\ (length (objects (myScene st))
              <= S (length (objects (myScene st'))))%nat)).
Proof.
  unfold flee_block. intros Hb.
  destruct (creeperRef st), (targetRef t st) eqn:Hr;
    try (injection Hb as <-; split_and!; auto).
  destruct (flee_move P t dt st) as [s1|] eqn:Hm; simpl in Hb; [|done].
  destruct (flee_move_footprint _ _ _ _ _ Hm)
    as (_ & Hsn & Hs & Hp & Ht & Hl & Ho & o & _ & Hd).
  destruct (explode_footprint _ _ _ Hb)
    as (Hsn' & Ho' & Hsd' & Hpd' & Htm' & Hcase).
  assert (Hsame : targetRef t s1 = targetRef t st
                  /\ targetRef (other t) s1 = targetRef (other t) st)
    by (by destruct t).
  destruct Hsame as [Hsame Hsameo].
  split_and!.
  - congruence.
  - congruence.
  - congruence.
  - destruct t; simpl in *; congruence.
  - right. exists (getPosition o). destruct t; simpl in *; congruence.
  - destruct Hcase as [[Hr' Hl']|(Hr' & Hne & Hle & Hge)]; [left|right].
    + split; congruence.
    + split_and!; [done|congruence|lia|lia].
Qed.

Lemma frame_steps P i st st' running eff :
  frame P i st = Some (st', running, eff) ->
  exists s1 s2 s3 s4 s5 ans,
    sun_step (day_cycle (deltaTime i) st) = Some s1
    /\ creeper_control P i (camera_keys i s1) = Some s2
    /\ flee_block P Steve (deltaTime i) s2 = Some s3
    /\ flee_block P Pig (deltaTime i) s3 = Some s4
    /\ tick_animators (deltaTime i) (animators (myScene s4)) s4
       = Some (ans, s5)
    /\ st' = set_animators ans s5.
Proof.
  unfold frame. intros Hf.
  destruct (sun_step _) as [s1|] eqn:H1; simpl in Hf; [|done].
  destruct (creeper_control P i _) as [s2|] eqn:H2; simpl in Hf; [|done].
  destruct (flee_block P Steve _ s2) as [s3|] eqn:H3; simpl in Hf; [|done].
  destruct (flee_block P Pig _ s3) as [s4|] eqn:H4; simpl in Hf; [|done].
  destruct (tick_animators _ _ s4) as [[ans s5]|] eqn:H5;
    simpl in Hf; [|done].
  exists s1, s2, s3, s4, s5, ans. split_and!; try done.
  revert Hf. repeat case_match; intros Hf; by simplify_eq.
Qed.

Lemma day_cycle_footprint dt st :
  creeperRef (day_cycle dt st) = creeperRef st
  /\ sunRef (day_cycle dt st) = sunRef st
  /\ steveRef (day_cycle dt st) = steveRef st
  /\ pigRef (day_cycle dt st) = pigRef st
  /\ steveFleeDir (day_cycle dt st) = steveFleeDir st
  /\ pigFleeDir (day_cycle dt st) = pigFleeDir st
  /\ myScene (day_cycle dt st) = myScene st
  /\ heap (day_cycle dt st) = heap st
  /\ pitch (day_cycle dt st) = pitch st.
Proof. unfold day_cycle. cbv zeta. by repeat case_match. Qed.

Lemma camera_keys_footprint i st :
  (creeperRef (camera_keys i st) = creeperRef st
   /\ sunRef (camera_keys i st) = sunRef st
   /\ steveRef (camera_keys i st) = steveRef st
   /\ pigRef (camera_keys i st) = pigRef st
   /\ steveFleeDir (camera_keys i st) = steveFleeDir st
   /\ pigFleeDir (camera_keys i st) = pigFleeDir st
   /\ sunTime (camera_keys i st) = sunTime st
   /\ length (objects (myScene (camera_keys i st)))
      = length (objects (myScene st)))
  /\ myScene (camera_keys i st) = myScene st
  /\ heap (camera_keys i st) = heap st.
Proof.
  unfold camera_keys. cbv zeta.
  destruct (keyW i), (keyS i), (keyA i), (keyD i); done.
Qed.

(** ** References and object count over the loop *)

Lemma aged_refl st : aged st st.
Proof. unfold aged. split_and!; auto. Qed.

Lemma aged_trans st1 st2 st3 : aged st1 st2 -> aged st2 st3 -> aged st1 st3.
Proof.
  unfold aged. intros (Hn & Hs & Hp & Hle & Hge) (Hn' & Hs' & Hp' & Hle' & Hge').
  split_and!.
  - congruence.
  - destruct Hs as [Hs|Hs], Hs' as [Hs'|Hs']; auto; left + right; congruence.
  - destruct Hp as [Hp|Hp], Hp' as [Hp'|Hp']; auto; left + right; congruence.
  - lia.
  - lia.
Qed.

Lemma frame_aged P i st st' running eff :
  frame P i st = Some (st', running, eff) -> aged st st'.
Proof.
  intros Hf.
  destruct (frame_steps _ _ _ _ _ _ Hf)
    as (s1 & s2 & s3 & s4 & s5 & ans & H1 & H2 & H3 & H4 & H5 & ->).
  apply sun_step_quiet in H1 as (_ & Hn1 & Hs1 & Hp1 & _ & _ & Ht1 & Hl1 & _).
  destruct (camera_keys_footprint i s1)
    as ((_ & Hnk & Hsk & Hpk & _ & _ & Htk & Hlk) & _).
  apply creeper_control_quiet in H2
    as (_ & Hn2 & Hs2 & Hp2 & _ & _ & Ht2 & Hl2 & _).
  destruct (flee_block_footprint _ _ _ _ _ H3)
    as (Hn3 & Hp3 & _ & _ & _ & Hc3).
  destruct (flee_block_footprint _ _ _ _ _ H4)
    as (Hn4 & Hs4 & _ & _ & _ & Hc4).
  apply tick_animators_quiet in H5
    as (_ & Hn5 & Hs5 & Hp5 & _ & _ & Ht5 & Hl5 & _).
  destruct (day_cycle_footprint (deltaTime i) st)
    as (_ & Hn0 & Hs0 & Hp0 & _ & _ & Hm0 & _).
  simpl in *.
  assert (Hlen0 : length (objects (myScene (day_cycle (deltaTime i) st)))
                  = length (objects (myScene st))) by (by rewrite Hm0).
  assert (Hq : steveRef s2 = steveRef st /\ pigRef s2 = pigRef st
               /\ length (objects (myScene s2))
                  = length (objects (myScene st))).
  { split_and!; congruence. }
  destruct Hq as (Hqs & Hqp & Hql).
  unfold aged, alive. simpl.
  rewrite Hn5, Hs5, Hp5, Hl5, Hn4, Hn3, Hn2, Hnk, Hn1, Hn0.
  rewrite <- Hqs, <- Hqp, <- Hql. clear -Hc3 Hc4 Hp3 Hs4.
  destruct Hc3 as [[Hr3 Hl3]|(Hr3 & Hne3 & Hle3 & Hge3)],
           Hc4 as [[Hr4 Hl4]|(Hr4 & Hne4 & Hle4 & Hge4)];
    rewrite ?Hs4, ?Hr4, ?Hr3, ?Hp3 in *;
    (split_and!; [done|auto|auto|lia|]);
    destruct (steveRef s2), (pigRef s2), (pigRef s3); simpl in *;
    try done; lia.
Qed.

Lemma frame_loop_aged P inputs st out st' out' :
  frame_loop P inputs st out = Running st' out' -> aged st st'.
Proof.
  revert st out. induction inputs as [|i rest IH]; intros st out; simpl.
  - intros [= <- _]. apply aged_refl.
  - destruct (frame P i st) as [[[s1 running] eff]|] eqn:Hf; [|done].
    destruct running; [|done]. intros Hl.
    eapply aged_trans; [by eapply frame_aged|by eapply IH].
Qed.

(** ** The flee directions *)

Lemma bounce_axis_x (pos d : vec3 float) (dt : float) :
  axis_x d -> axis_x (bounce pos d dt).
Proof.
  intros (Hx & Hy & [sz Hz]).
  destruct (bounce_components pos d dt) as (Hbx & Hby & Hbz).
  unfold axis_x. rewrite Hbx, Hby, Hbz. split_and!.
  - destruct (outside _ _ _); [|done].
    destruct Hx as [-> | ->]; [right|left]; reflexivity.
  - done.
  - destruct (outside (z _) _ _); [|by eexists].
    rewrite Hz. by eexists.
Qed.

Lemma frame_axis_x P i st st' running eff :
  frame P i st = Some (st', running, eff) ->
  axis_x (steveFleeDir st) -> axis_x (pigFleeDir st) ->
  axis_x (steveFleeDir st') /\ axis_x (pigFleeDir st').
Proof.
  intros Hf Hs Hp.
  destruct (frame_steps _ _ _ _ _ _ Hf)
    as (s1 & s2 & s3 & s4 & s5 & ans & H1 & H2 & H3 & H4 & H5 & ->).
  apply sun_step_quiet in H1 as (_ & _ & _ & _ & Hs1 & Hp1 & _).
  destruct (camera_keys_footprint i s1) as ((_ & _ & _ & _ & Hsk & Hpk & _) & _).
  apply creeper_control_quiet in H2 as (_ & _ & _ & _ & Hs2 & Hp2 & _).
  destruct (flee_block_footprint _ _ _ _ _ H3) as (_ & _ & _ & Hp3 & Hs3 & _).
  destruct (flee_block_footprint _ _ _ _ _ H4) as (_ & _ & _ & Hs4 & Hp4 & _).
  apply tick_animators_quiet in H5 as (_ & _ & _ & _ & Hs5 & Hp5 & _).
  destruct (day_cycle_footprint (deltaTime i) st)
    as (_ & _ & _ & _ & Hs0 & Hp0 & _).
  simpl in *.
  assert (Hs2' : axis_x (steveFleeDir s2)) by congruence.
  assert (Hp2' : axis_x (pigFleeDir s2)) by congruence.
  assert (Hs3' : axis_x (steveFleeDir s3)).
  { destruct Hs3 as [->|[pos ->]]; [done|by apply bounce_axis_x]. }
  assert (Hp3' : axis_x (pigFleeDir s3)) by congruence.
  rewrite Hs5, Hp5, Hs4. split; [done|].
  destruct Hp4 as [->|[pos ->]]; [done|by apply bounce_axis_x].
Qed.

(** ** The clock over an iteration *)

Lemma fltb_trans (a b c : float) :
  fltb a b = true -> fltb b c = true -> fltb a c = true.
Proof.
  unfold fltb, SFltb.
  float_cases; simpl; try done; cmp_cases; simpl; try done; lia.
Qed.

(** Whatever the frame time, not-a-number included, the clock is below 90
    after the update. *)
Lemma day_cycle_below_90 dt st :
  fltb (sunTime (day_cycle dt st)) (of_Z 90) = true.
Proof.
  unfold day_cycle. cbv zeta.
  destruct (fltb (fadd (sunTime st) dt) (of_Z 30)) eqn:H30.
  - simpl. apply fltb_trans with (of_Z 30); done.
  - destruct (fltb (fadd (sunTime st) dt) (of_Z 60)) eqn:H60.
    + simpl. apply fltb_trans with (of_Z 60); done.
    + destruct (fltb (fadd (sunTime st) dt) (of_Z 90)) eqn:H90; done.
Qed.

(** ** Absence of dangling pointers *)

Lemma destroy_unfold (k : nat) (o : Object3D) (h : gmap addr (list Object3D)) :
  destroy (S k) o h
  = match m_children o with
    | Some a =>
        match h !! a with
        | Some cs => foldr (destroy k) (delete a h) cs
        | None => h
        end
    | None => h
    end.
Proof. done. Qed.

(** Destruction only releases buffers. *)
Lemma destroy_subseteq (fuel : nat) (o : Object3D)
    (h : gmap addr (list Object3D)) :
  destroy fuel o h ⊆ h.
Proof.
  revert o h. induction fuel as [|k IH]; intros o h; [done|].
  rewrite destroy_unfold.
  destruct (m_children o) as [a|]; [|done].
  destruct (h !! a) as [cs|]; [|done].
  transitivity (delete a h); [|apply delete_subseteq].
  generalize (delete a h). intros g.
  induction cs as [|c cs IHcs]; [done|]. simpl.
  transitivity (foldr (destroy k) g cs); [apply IH|apply IHcs].
Qed.

Lemma closed_in_subseteq (D : gset addr) (h h' : gmap addr (list Object3D)) :
  h' ⊆ h -> closed_in D h -> closed_in D h'.
Proof.
  intros Hsub Hc b cs c Hb Hl Hin.
  eapply Hc; [done| |done]. by eapply lookup_weaken.
Qed.

(** Destroying an object whose tree lies in [D] leaves every buffer
    outside [D] as it is. *)
Lemma destroy_outside (D : gset addr) (a : addr) (fuel : nat) (o : Object3D)
    (h : gmap addr (list Object3D)) :
  a ∉ D -> closed_in D h -> handles_in D o ->
  destroy fuel o h !! a = h !! a.
Proof.
  intros Ha. revert o h. induction fuel as [|k IH]; intros o h Hc Ho; [done|].
  rewrite destroy_unfold.
  destruct (m_children o) as [b|] eqn:Hb; [|done].
  destruct (h !! b) as [cs|] eqn:Hcs; [|done].
  assert (HbD : b ∈ D) by (by apply Ho).
  assert (Hne : b <> a) by (intros ->; done).
  rewrite <- (lookup_delete_ne h b a) by done.
  assert (Hkids : Forall (handles_in D) cs).
  { apply Forall_forall. intros c Hin. by eapply Hc. }
  assert (Hg : closed_in D (delete b h)).
  { eapply closed_in_subseteq; [apply delete_subseteq|done]. }
  clear Hcs Hc. revert Hg. generalize (delete b h). intros g Hg.
  induction Hkids as [|c cs Hc0 Hrest IHcs]; [done|]. simpl.
  rewrite IH; [apply IHcs| |done].
  eapply closed_in_subseteq; [|exact Hg].
  clear. induction cs as [|c cs IHcs]; [done|]. simpl.
  transitivity (foldr (destroy k) g cs); [apply destroy_subseteq|done].
Qed.

Lemma same_shape_refl o : same_shape o o.
Proof. done. Qed.

Lemma Forall2_same_shape_refl l : Forall2 same_shape l l.
Proof. induction l; constructor; done. Qed.

Lemma reshaped_refl st : reshaped st st.
Proof. unfold reshaped. split_and!; try done. apply Forall2_same_shape_refl. Qed.

Lemma reshaped_trans st1 st2 st3 :
  reshaped st1 st2 -> reshaped st2 st3 -> reshaped st1 st3.
Proof.
  intros (Ha & Hc & Hn & Hs & Hp & Hh & Hf) (Ha' & Hc' & Hn' & Hs' & Hp' & Hh' & Hf').
  unfold reshaped. split_and!; try congruence.
  clear -Hf Hf'. revert Hf'. generalize (objects (myScene st3)).
  induction Hf as [|o1 o2 l1 l2 [? ?] _ IH]; intros l3 Hf'.
  - inversion Hf'. constructor.
  - inversion Hf' as [|? o3 ? l3' [? ?] Hrest]; subst.
    constructor; [split; congruence|by apply IH].
Qed.

Lemma reshaped_length st st' :
  reshaped st st' ->
  length (objects (myScene st')) = length (objects (myScene st)).
Proof. intros (_&_&_&_&_&_&Hf). symmetry. by eapply Forall2_length. Qed.

Lemma reshaped_targets t st st' :
  reshaped st st' -> targetRef t st' = targetRef t st.
Proof. intros (_&_&_&Hs&Hp&_). by destruct t. Qed.

Lemma safe_reshaped a D st st' : reshaped st st' -> safe a D st -> safe a D st'.
Proof.
  intros Hr [Han Hh Hsr Hsun Hc Hout Hcl Ht].
  pose proof (reshaped_length _ _ Hr) as Hlen.
  pose proof Hr as (Ha & Hcr & Hn & Hs & Hp & Hheap & Hf).
  split.
  - congruence.
  - destruct Hh as (j & c & Hj & Hjc & Hjn).
    destruct (Forall2_lookup_l _ _ _ _ _ Hf Hjc) as (c' & Hl' & Hn' & _).
    exists j, c'. unfold getName in *. split_and!; congruence.
  - congruence.
  - by rewrite Hheap.
  - destruct Hc as (c & Hlast & Hname).
    rewrite last_lookup in Hlast.
    destruct (Forall2_lookup_l _ _ _ _ _ Hf Hlast) as (c' & Hl' & Hn' & _).
    exists c'. split; [|unfold getName in *; congruence].
    rewrite last_lookup, Hlen. done.
  - done.
  - by rewrite Hheap.
  - intros t r Htr. rewrite (reshaped_targets _ _ _ Hr) in Htr.
    destruct (Ht t r Htr) as (i & -> & Hi & Hboth).
    exists i. split_and!; [done|lia|].
    rewrite (reshaped_targets _ _ _ Hr). intros Hother.
    destruct (Hboth Hother) as [Hii Hhand]. split; [lia|].
    intros o' Ho'.
    destruct (Forall2_lookup_r _ _ _ _ _ Hf Ho') as (o & Ho & _ & Hch).
    intros b Hb. apply (Hhand o Ho). congruence.
Qed.

Lemma call_scene (j : nat) (f : Object3D -> Object3D) (st : State) :
  (j < length (objects (myScene st)))%nat ->
  (forall o, same_shape o (f o)) ->
  exists st', call (InScene j) f st = Some st' /\ reshaped st st'.
Proof.
  intros Hj Hf. destruct (lookup_lt_is_Some_2 _ _ Hj) as [o Ho].
  unfold call. simpl. rewrite Ho. simpl. rewrite decide_True by done.
  eexists. split; [done|]. unfold reshaped. simpl. split_and!; try done.
  rewrite <- (list_insert_id _ _ _ Ho) at 1.
  apply Forall2_insert; [apply Forall2_same_shape_refl|apply Hf].
Qed.

Lemma steer_scene (P : Platform) (j : nat) (held : bool) (dir : vec3 float)
    (dt : float) (st : State) :
  (j < length (objects (myScene st)))%nat ->
  exists st', steer P (InScene j) held dir dt st = Some st' /\ reshaped st st'.
Proof.
  intros Hj. unfold steer.
  destruct held; [|eexists; split; [done|apply reshaped_refl]].
  destruct (call_scene j (move (vscale (vscale dir dt) (of_Z 2))) st Hj)
    as (st1 & -> & H1); [done|].
  cbn [mbind option_bind].
  set (st2 := set_creeperYaw _ st1).
  assert (H2 : reshaped st1 st2).
  { unfold reshaped. split_and!; try done. apply Forall2_same_shape_refl. }
  destruct (call_scene j
              (setOrientation (Vec3 (of_Z 0) (creeperYaw st2) (of_Z 0))) st2)
    as (st3 & -> & H3); [|done|].
  { rewrite (reshaped_length _ _ H2), (reshaped_length _ _ H1). done. }
  eexists. split; [done|]. eauto using reshaped_trans.
Qed.

Lemma creeper_control_scene (P : Platform) (i : Input) (j : nat) (st : State) :
  creeperRef st = Some (InScene j) ->
  (j < length (objects (myScene st)))%nat ->
  exists st', creeper_control P i st = Some st' /\ reshaped st st'.
Proof.
  intros Hc Hj. unfold creeper_control. rewrite Hc.
  destruct (lookup_lt_is_Some_2 _ _ Hj) as [o Ho].
  cbn [load]. rewrite Ho. cbn [mbind option_bind].
  destruct (steer_scene P j (keyUp i) (normalize (flat (cameraFront st)))
              (deltaTime i) st Hj) as (s1 & -> & H1).
  cbn [mbind option_bind].
  assert (Hj1 : (j < length (objects (myScene s1)))%nat)
    by (by rewrite (reshaped_length _ _ H1)).
  destruct (steer_scene P j (keyDown i)
              (normalize (flat (vneg (cameraFront st))))
              (deltaTime i) s1 Hj1) as (s2 & -> & H2).
  cbn [mbind option_bind].
  assert (Hj2 : (j < length (objects (myScene s2)))%nat)
    by (by rewrite (reshaped_length _ _ H2)).
  destruct (steer_scene P j (keyLeft i)
              (normalize (flat (normalize (cross cameraUp (cameraFront st)))))
              (deltaTime i) s2 Hj2) as (s3 & -> & H3).
  cbn [mbind option_bind].
  assert (Hj3 : (j < length (objects (myScene s3)))%nat)
    by (by rewrite (reshaped_length _ _ H3)).
  destruct (steer_scene P j (keyRight i)
              (normalize (flat (normalize (cross (cameraFront st) cameraUp))))
              (deltaTime i) s3 Hj3) as (s4 & -> & H4).
  cbn [mbind option_bind].
  eexists. split; [done|].
  eapply reshaped_trans; [exact H1|].
  eapply reshaped_trans; [exact H2|].
  eapply reshaped_trans; [exact H3|].
  eapply reshaped_trans; [exact H4|].
  unfold reshaped. split_and!; try done. apply Forall2_same_shape_refl.
Qed.

Lemma flee_move_scene (P : Platform) (t : target) (dt : float) (i : nat)
    (st : State) :
  targetRef t st = Some (InScene i) ->
  (i < length (objects (myScene st)))%nat ->
  exists st', flee_move P t dt st = Some st' /\ reshaped st st'.
Proof.
  intros Ht Hi. unfold flee_move. rewrite Ht.
  destruct (lookup_lt_is_Some_2 _ _ Hi) as [o Ho].
  cbn [mbind option_bind load]. rewrite Ho. cbn [mbind option_bind].
  set (st1 := set_fleeDir t _ st).
  assert (H1 : reshaped st st1).
  { unfold reshaped, st1. destruct t; split_and!; try done;
      apply Forall2_same_shape_refl. }
  assert (Hi1 : (i < length (objects (myScene st1)))%nat)
    by (by rewrite (reshaped_length _ _ H1)).
  destruct (call_scene i
              (setPosition (propose (getPosition o) (fleeDir t st1) dt))
              st1 Hi1) as (st2 & -> & H2); [done|].
  cbn [mbind option_bind].
  assert (Hi2 : (i < length (objects (myScene st2)))%nat)
    by (by rewrite (reshaped_length _ _ H2)).
  destruct (call_scene i
              (setOrientation
                 (Vec3 (of_Z 0)
                    (atan2f P (x (fleeDir t st2)) (z (fleeDir t st2)))
                    (of_Z 0)))
              st2 Hi2) as (st3 & -> & H3); [done|].
  eexists. split; [done|]. eauto using reshaped_trans.
Qed.

Lemma sun_step_safe (a : addr) (D : gset addr) (st : State) :
  safe a D st -> exists st', sun_step st = Some st' /\ safe a D st'.
Proof.
  intros [Han Hh Hsr (sun & cs & Hsun) Hc Hout Hcl Ht].
  unfold sun_step, call. rewrite Hsr. cbn [load mbind option_bind].
  rewrite Hsun. cbn [mbind option_bind lookup list_lookup store].
  rewrite Hsun. cbn [mbind option_bind].
  rewrite decide_True by (simpl; lia).
  eexists. split; [done|]. split; try done.
  - simpl. rewrite lookup_insert_eq. by do 2 eexists.
  - simpl. intros b ks k Hb Hks Hk.
    rewrite lookup_insert_ne in Hks by (intros ->; done).
    by eapply Hcl.
Qed.

Lemma removed_animators (t : target) (i : nat) (prey : Object3D) (st : State) :
  animators (myScene (removed t i prey st)) = animators (myScene st).
Proof. unfold removed, relink. destruct t; simpl; by case_match. Qed.

Lemma find_creeper_some (l : list Object3D) (c : Object3D) :
  last l = Some c -> getName c = "Creeper" ->
  exists j o, find_creeper l = Some j /\ l !! j = Some o
              /\ getName o = "Creeper".
Proof.
  intros Hl Hn. unfold find_creeper.
  destruct (list_find_elem_of (fun o => getName o = "Creeper") l c)
    as [[j o] Hf]; [|done|].
  { rewrite last_lookup in Hl. by eapply list_elem_of_lookup_2. }
  rewrite Hf. exists j, o. split; [done|].
  by apply list_find_Some in Hf as (Hj & Hn' & _).
Qed.

Lemma last_delete (i : nat) (l : list Object3D) :
  (S i < length l)%nat -> last (delete i l) = last l.
Proof.
  intros Hi. rewrite !last_lookup, length_delete by (apply lookup_lt_is_Some_2; lia).
  rewrite list_lookup_delete_ge by lia. f_equal. lia.
Qed.

Lemma other_other (t : target) : other (other t) = t.
Proof. by destruct t. Qed.

Lemma targetRef_cases (t t' : target) : t' = t \/ t' = other t.
Proof. destruct t, t'; auto. Qed.

Lemma removed_other (t : target) (i : nat) (prey : Object3D) (st : State) :
  targetRef (other t) (removed t i prey st) = targetRef (other t) st.
Proof.
  destruct (removed_refs t i prey st) as (_ & _ & Hs & Hp & _).
  destruct t; simpl; auto.
Qed.

Lemma explode_safe (a : addr) (D : gset addr) (t : target) (r : ptr)
    (st : State) :
  safe a D st -> targetRef t st = Some r ->
  exists st', explode t st = Some st' /\ (safe a D st' \/ finished st').
Proof.
  intros Hs Hr. pose proof Hs as [Han Hh Hsr Hsun Hc Hout Hcl Ht].
  destruct Hh as (j & hunter & Hj & Hhu & _).
  destruct (Ht t r Hr) as (i & -> & Hi & Hboth).
  destruct (lookup_lt_is_Some_2 (objects (myScene st)) i) as [prey Hpr];
    [lia|].
  destruct (fltb (length3 (vsub (getPosition hunter) (getPosition prey)))
              (dec 8 10)) eqn:Hd.
  2: { exists st. split; [|by left]. by eapply explode_far. }
  exists (removed t i prey st). split; [by eapply explode_near|].
  destruct (removed_refs t i prey st) as (Hnull & Hsun' & _ & _ & Hheap & Hcr).
  pose proof (removed_other t i prey st) as Hoth.
  pose proof (removed_animators t i prey st) as Hanim.
  pose proof (removed_objects t i prey st) as Hobj.
  destruct (targetRef (other t) st) as [r'|] eqn:Ho.
  2: { right. unfold finished. rewrite Hanim.
       destruct t; simpl in *; split_and!; congruence. }
  left. destruct (Hboth ltac:(done)) as [Hii Hhand].
  destruct Hc as (c & Hlast & Hname).
  assert (Hlast' : last (objects (myScene (removed t i prey st))) = Some c).
  { rewrite Hobj, last_delete by done. done. }
  split.
  - congruence.
  - destruct (find_creeper_some _ c Hlast' Hname) as (k & o & Hk & Hko & Hkn).
    exists k, o. rewrite Hcr, <- Hobj, Hk. done.
  - congruence.
  - rewrite Hheap, (destroy_outside D) by eauto. done.
  - by exists c.
  - done.
  - rewrite Hheap. eapply closed_in_subseteq; [apply destroy_subseteq|done].
  - intros t' q Hq. destruct (targetRef_cases t t') as [->| ->].
    { congruence. }
    rewrite Hoth in Hq. injection Hq as <-.
    destruct (Ht (other t) r' Ho) as (i' & -> & Hi' & Hboth').
    rewrite other_other in Hboth'.
    destruct Hboth' as [Hii' _]; [congruence|].
    exists i'. split_and!; [done| |].
    + rewrite Hobj, length_delete by (apply lookup_lt_is_Some_2; lia). lia.
    + rewrite other_other, Hnull. done.
Qed.

Lemma flee_block_safe (P : Platform) (a : addr) (D : gset addr) (t : target)
    (dt : float) (st : State) :
  safe a D st ->
  exists st', flee_block P t dt st = Some st' /\ (safe a D st' \/ finished st').
Proof.
  intros Hs. unfold flee_block.
  destruct (safe_hunter _ _ _ Hs) as (j & c & -> & Hj & _).
  destruct (targetRef t st) as [r|] eqn:Hr; [|exists st; auto].
  destruct (safe_targets _ _ _ Hs t r Hr) as (i & -> & Hi & _).
  destruct (flee_move_scene P t dt i st Hr) as (st1 & -> & H1); [lia|].
  cbn [mbind option_bind].
  eapply explode_safe; [by eapply safe_reshaped|].
  by rewrite (reshaped_targets _ _ _ H1).
Qed.

Lemma flee_block_finished (P : Platform) (t : target) (dt : float)
    (st : State) :
  finished st -> flee_block P t dt st = Some st.
Proof.
  intros (Hs & Hp & _). unfold flee_block.
  destruct t; simpl; rewrite ?Hs, ?Hp; by destruct (creeperRef st).
Qed.

Lemma day_cycle_reshaped (dt : float) (st : State) :
  reshaped st (day_cycle dt st).
Proof.
  unfold day_cycle, reshaped. repeat case_match; simpl; split_and!; try done;
    apply Forall2_same_shape_refl.
Qed.

Lemma camera_keys_reshaped (i : Input) (st : State) :
  reshaped st (camera_keys i st).
Proof.
  unfold camera_keys, reshaped.
  destruct (keyW i), (keyS i), (keyA i), (keyD i); simpl; split_and!;
    try done; apply Forall2_same_shape_refl.
Qed.

(** An iteration from a state of the invariant is defined, and when the
    loop goes on the invariant holds again. *)
Lemma frame_safe (P : Platform) (a : addr) (D : gset addr) (i : Input)
    (st : State) :
  safe a D st ->
  exists st' running eff,
    frame P i st = Some (st', running, eff)
    /\ (running = true -> safe a D st').
Proof.
  intros Hs. unfold frame.
  pose proof (safe_reshaped a D _ _ (day_cycle_reshaped (deltaTime i) st) Hs)
    as Hs0.
  destruct (sun_step_safe a D _ Hs0) as (s1 & -> & Hs1).
  cbn [mbind option_bind].
  pose proof (safe_reshaped a D _ _ (camera_keys_reshaped i s1) Hs1) as Hs2.
  destruct (safe_hunter _ _ _ Hs2) as (j & c & Hj & Hjc & _).
  destruct (creeper_control_scene P i j _ Hj (lookup_lt_Some _ _ _ Hjc))
    as (s3 & -> & H3).
  cbn [mbind option_bind].
  pose proof (safe_reshaped a D _ _ H3 Hs2) as Hs3.
  assert (Hend : forall s,
    safe a D s \/ finished s ->
    exists st' running eff,
      ('(ans, st) ← tick_animators (deltaTime i) (animators (myScene s)) s;
       let st := set_animators ans st in
       match steveRef st, pigRef st with
       | None, None =>
           Some (st, false, [StdoutFPS (fdiv fone (deltaTime i)); SleepMs 3])
       | _, _ =>
           Some (st, negb (closed i), [StdoutFPS (fdiv fone (deltaTime i))])
       end) = Some (st', running, eff)
      /\ (running = true -> safe a D st')).
  { intros s [Hsafe|(Hst & Hpi & Han)].
    - rewrite (safe_animators _ _ _ Hsafe). cbn.
      assert (Hs' : safe a D (set_animators [] s)).
      { eapply safe_reshaped; [|exact Hsafe]. unfold reshaped.
        split_and!; try done; [by rewrite (safe_animators _ _ _ Hsafe)|].
        apply Forall2_same_shape_refl. }
      destruct (steveRef s), (pigRef s); do 3 eexists; (split; [done|]);
        done.
    - rewrite Han. cbn. rewrite Hst, Hpi. do 3 eexists. split; [done|done]. }
  destruct (flee_block_safe P a D Steve (deltaTime i) _ Hs3)
    as (s4 & -> & [Hs4|Hf4]); cbn [mbind option_bind].
  - destruct (flee_block_safe P a D Pig (deltaTime i) _ Hs4)
      as (s5 & -> & H5); cbn [mbind option_bind].
    by apply Hend.
  - rewrite (flee_block_finished P Pig (deltaTime i) _ Hf4).
    cbn [mbind option_bind]. apply Hend. by right.
Qed.

Lemma frame_loop_safe (P : Platform) (a : addr) (D : gset addr)
    (inputs : list Input) (st : State) (out out' : list effect) :
  safe a D st -> frame_loop P inputs st out <> Undefined out'.
Proof.
  revert st out. induction inputs as [|i rest IH]; intros st out Hs; [done|].
  simpl. destruct (frame_safe P a D i st Hs) as (st' & running & eff & -> & Hr).
  destruct running; [by apply IH, Hr|done].
Qed.

Lemma frame_loop_closed (P : Platform) (a : addr) (D : gset addr)
    (inputs : list Input) (st : State) (out : list effect) :
  safe a D st -> Exists (fun i => closed i = true) inputs ->
  exists out', frame_loop P inputs st out = Exit 0 out'.
Proof.
  intros Hs Hex. revert st out Hs.
  induction Hex as [i rest Hc|i rest _ IH]; intros st out Hs; simpl.
  - destruct (frame_safe P a D i st Hs) as (st' & running & eff & Hf & _).
    rewrite Hf. pose proof (frame_end P i st st' running eff Hf) as He.
    rewrite Hc in He.
    assert (running = false) as -> by (repeat case_match; by destruct He).
    by eexists.
  - destruct (frame_safe P a D i st Hs) as (st' & running & eff & -> & Hr).
    destruct running; [by apply IH, Hr|by eexists].
Qed.

Lemma layout_safe (st : State) (pre : list Object3D)
    (steve pig sky creeper sun : Object3D) (clouds : list Object3D)
    (a : addr) (D : gset addr) :
  layout st pre steve pig sky creeper sun clouds a ->
  animators (myScene st) = [] ->
  getName creeper = "Creeper" ->
  a ∉ D -> closed_in D (heap st) ->
  handles_in D steve -> handles_in D pig ->
  safe a D st.
Proof.
  intros [Hobj Hst Hpi Hcr Hsu Hsky Hheap] Han Hname Hout Hcl Hhs Hhp.
  assert (Hlen : length (objects (myScene st)) = (length pre + 4)%nat).
  { rewrite Hobj, length_app. simpl. lia. }
  split; try done.
  - exists (length pre + 3)%nat, creeper. split_and!; [done| |done].
    rewrite Hobj, lookup_app_r by lia.
    by replace (length pre + 3 - length pre)%nat with 3%nat by lia.
  - by do 2 eexists.
  - exists creeper. split; [|done].
    rewrite Hobj. replace (pre ++ [steve; pig; sky; creeper])
      with ((pre ++ [steve; pig; sky]) ++ [creeper])
      by (by rewrite <- (assoc_L (++))).
    apply last_snoc.
  - intros t r Hr. destruct t; simpl in Hr; rewrite ?Hst, ?Hpi in Hr;
      injection Hr as <-; eexists; (split; [done|]); (split; [lia|]);
      intros _; (split; [lia|]); intros o; rewrite Hobj.
    + rewrite lookup_app_r by lia. rewrite Nat.sub_diag. simpl.
      by intros [= <-].
    + rewrite lookup_app_r by lia.
      replace (S (length pre) - length pre)%nat with 1%nat by lia. simpl.
      by intros [= <-].
Qed.

Lemma handles_in_mono (D D' : gset addr) (o : Object3D) :
  D ⊆ D' -> handles_in D o -> handles_in D' o.
Proof. intros HD Ho b Hb. apply HD, Ho, Hb. Qed.

Lemma fresh_insert_outside (h : gmap addr (list Object3D)) (k : addr)
    (l : list Object3D) :
  fresh (dom (<[k := l]> h)) ∉ dom h.
Proof.
  intros Hin. apply (is_fresh (dom (<[k := l]> h))).
  by apply dom_insert_subseteq.
Qed.

Lemma minecraftScene_safe (P : Platform) (st : State) :
  well_formed_import P ->
  minecraftScene P globals = Ret st ->
  exists a D, safe a D st.
Proof.
  intros Hwf Hm.
  destruct (minecraftScene_layout P st Hm)
    as (steve & pig & sky & creeper & sun & cloud & a & Hlay & Hname & _).
  revert Hm Hlay. unfold minecraftScene, run_bind.
  destruct (texturingShader P) as [shader|]; [|done].
  destruct (assimpLoad P "models/Minecraft/Creeper.gltf" true _)
    as [creeper0 h1] eqn:E1.
  destruct (assimpLoad P "models/Minecraft/Steve/Steve.gltf" true _)
    as [steve0 h2] eqn:E2.
  destruct (assimpLoad P "models/Minecraft/Pig/pig.gltf" true _)
    as [pig0 h3] eqn:E3.
  destruct (assimpLoad P "models/Minecraft/Clouds/cloud.gltf" true _)
    as [cloud0 h4] eqn:E4.
  destruct (assimpLoad P "models/Minecraft/sun.gltf" true _)
    as [sun0 h5] eqn:E5.
  assert (C0 : closed_in (dom (heap globals)) (heap globals)).
  { intros b cs c _ Hb. simpl in Hb. by rewrite lookup_empty in Hb. }
  destruct (Hwf _ _ _ _ _ E1 C0) as (S1 & C1 & _).
  destruct (Hwf _ _ _ _ _ E2 C1) as (S2 & C2 & K2).
  destruct (Hwf _ _ _ _ _ E3 C2) as (S3 & C3 & K3).
  destruct (Hwf _ _ _ _ _ E4 C3) as (S4 & C4 & _).
  destruct (Hwf _ _ _ _ _ E5 C4) as (S5 & C5 & _).
  unfold addChild. simpl. intros [= <-] Hlay.
  pose proof Hlay as [Hobj _ _ _ Hsun _ _].
  simpl in Hobj, Hsun. injection Hsun as <-.
  rewrite <- !(assoc_L (++)) in Hobj. simpl in Hobj.
  apply app_inv_head in Hobj. injection Hobj as <- <- _ _.
  eexists _, (dom h5).
  eapply layout_safe; [exact Hlay|done|done|..].
  - apply fresh_insert_outside.
  - simpl. intros b cs c Hb Hcs Hc.
    rewrite lookup_insert_ne in Hcs
      by (intros <-; by apply (fresh_insert_outside h5) in Hb).
    rewrite lookup_delete_ne, lookup_insert_ne in Hcs
      by (intros <-; by apply (is_fresh (dom h5))).
    by eapply C5.
  - eapply (handles_in_mono (dom h2)); [|exact K2].
    etrans; [exact S3|]. etrans; [exact S4|exact S5].
  - eapply (handles_in_mono (dom h3)); [|exact K3].
    etrans; [exact S4|exact S5].
Qed.

(** ** [main] and the frame loop *)

Lemma main_loop (P : Platform) (inputs : list Input) (st0 : State) :
  minecraftScene P globals = Ret st0 ->
  animators (myScene st0) = [] ->
  main P inputs = frame_loop P inputs (set_animators [] st0) [StdoutCwd].
Proof. intros Hm Ha. unfold main. by rewrite Hm, Ha. Qed.

Lemma minecraftScene_globals (P : Platform) (st : State) :
  minecraftScene P globals = Ret st ->
  animators (myScene st) = []
  /\ steveFleeDir st = steveFleeDir globals
  /\ pigFleeDir st = pigFleeDir globals
  /\ sunTime st = sunTime globals
  /\ pitch st = pitch globals /\ yaw st = yaw globals.
Proof.
  unfold minecraftScene, run_bind.
  destruct (texturingShader P) as [shader|]; [|done].
  repeat match goal with
  | |- context [assimpLoad P ?a ?b ?c] => destruct (assimpLoad P a b c)
  end.
  unfold addChild. simpl. by intros [= <-].
Qed.

Lemma set_animators_reshaped (st : State) :
  animators (myScene st) = [] -> reshaped st (set_animators [] st).
Proof.
  intros Ha. unfold reshaped. split_and!; try done.
  apply Forall2_same_shape_refl.
Qed.

Lemma main_start_safe (P : Platform) (st0 : State) :
  well_formed_import P ->
  minecraftScene P globals = Ret st0 ->
  exists a D, safe a D (set_animators [] st0).
Proof.
  intros Hwf Hm. destruct (minecraftScene_safe P st0 Hwf Hm) as (a & D & Hs).
  exists a, D. eapply safe_reshaped; [|exact Hs].
  apply set_animators_reshaped, (safe_animators _ _ _ Hs).
Qed.

Lemma frame_loop_running_safe (P : Platform) (a : addr) (D : gset addr)
    (inputs : list Input) (st st' : State) (out out' : list effect) :
  safe a D st -> frame_loop P inputs st out = Running st' out' ->
  safe a D st'.
Proof.
  revert st out. induction inputs as [|i rest IH]; intros st out Hs; simpl.
  - by intros [= <- _].
  - destruct (frame_safe P a D i st Hs) as (s1 & running & eff & -> & Hr).
    destruct running; [|done]. by apply IH, Hr.
Qed.

(** X1: with an importer that returns objects whose child handles are
    allocated, frees no buffer and leaves no handle of the heap dangling,
    no run of [main] has the outcome [Undefined], whatever the inputs:
    every pointer the frame loop dereferences (the hunter, the sun, a
    fleeing target that is not null) is the address of a live slot, also
    after a removal has shifted the object list and released the child
    buffers of the removed target.  Pointers are read as addresses: a
    reference into the shifted part of the list counts as live. *)
Theorem main_never_undefined (P : Platform) (inputs : list Input)
    (out : list effect) :
  well_formed_import P -> main P inputs <> Undefined out.
Proof.
  intros Hwf. destruct (minecraftScene P globals) as [st0|status eff] eqn:Hm.
  - destruct (minecraftScene_globals P st0 Hm) as (Ha & _).
    rewrite (main_loop P inputs st0 Hm Ha).
    destruct (main_start_safe P st0 Hwf Hm) as (a & D & Hs).
    by eapply frame_loop_safe.
  - unfold main. by rewrite Hm.
Qed.

(** X2: with such an importer, a run of [main] that polls a [Closed]
    event ends: [main] returns 0, or it has called [exit] with status 1
    before the first frame. *)
Theorem closed_event_ends_main (P : Platform) (inputs : list Input) :
  well_formed_import P ->
  Exists (fun i => closed i = true) inputs ->
  exists status out,
    main P inputs = Exit status out /\ (status = 0 \/ status = 1).
Proof.
  intros Hwf Hex.
  pose proof (minecraftScene_cases P globals) as Hc.
  unfold texturingShader in Hc.
  destruct (shader_load P _ _ _) as [what|shader].
  - unfold main. rewrite Hc. do 2 eexists. split; [done|by right].
  - destruct Hc as (st0 & Hm & _).
    destruct (minecraftScene_globals P st0 Hm) as (Ha & _).
    rewrite (main_loop P inputs st0 Hm Ha).
    destruct (main_start_safe P st0 Hwf Hm) as (a & D & Hs).
    destruct (frame_loop_closed P a D inputs _ [StdoutCwd] Hs Hex)
      as (out' & ->).
    do 2 eexists. split; [done|by left].
Qed.

(** X3: with such an importer, in every state in which the frame loop
    of [main] is still running, the hunter reference designates an object
    named "Creeper", the sun's reference designates an object, every
    fleeing-target reference that is not null designates an object of the
    list, the last object of the list is named "Creeper", and the scene
    has no animators. *)
Theorem references_stay_live (P : Platform) (inputs : list Input)
    (st : State) (out : list effect) :
  well_formed_import P ->
  main P inputs = Running st out ->
  (exists c, designates (creeperRef st) st = Some c /\ getName c = "Creeper")
  /\ is_Some (designates (sunRef st) st)
  /\ (forall t, targetRef t st <> None ->
                is_Some (designates (targetRef t st) st))
  /\ (exists c, last (objects (myScene st)) = Some c
                /\ getName c = "Creeper")
  /\ animators (myScene st) = [].
Proof.
  intros Hwf Hrun.
  destruct (minecraftScene P globals) as [st0|status eff] eqn:Hm.
  2: { unfold main in Hrun. by rewrite Hm in Hrun. }
  destruct (minecraftScene_globals P st0 Hm) as (Ha & _).
  rewrite (main_loop P inputs st0 Hm Ha) in Hrun.
  destruct (main_start_safe P st0 Hwf Hm) as (a & D & Hs).
  pose proof (frame_loop_running_safe P a D _ _ _ _ _ Hs Hrun)
    as [Han Hh Hsr Hsun Hc Hout Hcl Ht].
  split_and!.
  - destruct Hh as (j & c & -> & Hj & Hn). by exists c.
  - destruct Hsun as (sun & cs & Hsun). rewrite Hsr. simpl.
    rewrite Hsun. by eexists.
  - intros t Hne. destruct (targetRef t st) as [r|] eqn:Hr; [|done].
    destruct (Ht t r Hr) as (i & -> & Hi & _). simpl.
    apply lookup_lt_is_Some_2. lia.
  - done.
  - done.
Qed.

(** X4: over any number of iterations of the frame loop, from any
    state, the sun's reference is never assigned, a fleeing-target
    reference keeps its value or becomes null (it is never re-bound), the
    object list never grows, and it loses at most one object for each
    target reference that became null. *)
Theorem references_only_go_null (P : Platform) (inputs : list Input)
    (st st' : State) (out out' : list effect) :
  frame_loop P inputs st out = Running st' out' ->
  sunRef st' = sunRef st
  /\ (forall t, targetRef t st' = targetRef t st \/ targetRef t st' = None)
  /\ (length (objects (myScene st')) <= length (objects (myScene st)))%nat
  /\ (length (objects (myScene st)) + alive st'
      <= length (objects (myScene st')) + alive st)%nat.
Proof.
  intros Hl. destruct (frame_loop_aged _ _ _ _ _ _ Hl) as (Hn & Hs & Hp & Hle & Hge).
  split_and!; try done. by intros [].
Qed.

Lemma frame_loop_axis_x (P : Platform) (inputs : list Input)
    (st st' : State) (out out' : list effect) :
  frame_loop P inputs st out = Running st' out' ->
  axis_x (steveFleeDir st) -> axis_x (pigFleeDir st) ->
  axis_x (steveFleeDir st') /\ axis_x (pigFleeDir st').
Proof.
  revert st out. induction inputs as [|i rest IH]; intros st out; simpl.
  - by intros [= <- _].
  - destruct (frame P i st) as [[[s1 running] eff]|] eqn:Hf; [|done].
    destruct running; [|done]. intros Hl Hs Hp.
    destruct (frame_axis_x _ _ _ _ _ _ Hf Hs Hp) as [Hs1 Hp1].
    by eapply IH.
Qed.

(** X5: throughout a run of [main] both flee directions lie on the x
    axis: x is 1 or -1 and y and z are zeros.  The bounce on the z bounds
    only ever flips the sign of a zero. *)
Theorem flee_directions_stay_on_x_axis (P : Platform) (inputs : list Input)
    (st : State) (out : list effect) :
  main P inputs = Running st out ->
  axis_x (steveFleeDir st) /\ axis_x (pigFleeDir st).
Proof.
  intros Hrun.
  destruct (minecraftScene P globals) as [st0|status eff] eqn:Hm.
  2: { unfold main in Hrun. by rewrite Hm in Hrun. }
  destruct (minecraftScene_globals P st0 Hm) as (Ha & Hsd & Hpd & _).
  rewrite (main_loop P inputs st0 Hm Ha) in Hrun.
  eapply frame_loop_axis_x; [exact Hrun| |]; simpl; rewrite ?Hsd, ?Hpd.
  - split_and!; [by right|by eexists|by eexists].
  - split_and!; [by left|by eexists|by eexists].
Qed.

(** X6: after every iteration of the frame loop the clock [sunTime] is
    the value the day/night update gave it, and it is below 90, whatever
    the frame time (negative, infinite or not a number included). *)
Theorem clock_below_90_after_frame (P : Platform) (i : Input)
    (st st' : State) (running : bool) (eff : list effect) :
  frame P i st = Some (st', running, eff) ->
  sunTime st' = sunTime (day_cycle (deltaTime i) st)
  /\ fltb (sunTime st') (of_Z 90) = true.
Proof.
  intros Hf.
  destruct (frame_steps _ _ _ _ _ _ Hf)
    as (s1 & s2 & s3 & s4 & s5 & ans & H1 & H2 & H3 & H4 & H5 & ->).
  apply sun_step_quiet in H1 as (_ & _ & _ & _ & _ & _ & Ht1 & _).
  destruct (camera_keys_footprint i s1)
    as ((_ & _ & _ & _ & _ & _ & Htk & _) & _).
  apply creeper_control_quiet in H2 as (_ & _ & _ & _ & _ & _ & Ht2 & _).
  destruct (flee_block_footprint _ _ _ _ _ H3) as (_ & _ & Ht3 & _).
  destruct (flee_block_footprint _ _ _ _ _ H4) as (_ & _ & Ht4 & _).
  apply tick_animators_quiet in H5 as (_ & _ & _ & _ & _ & _ & Ht5 & _).
  assert (Heq : sunTime (set_animators ans s5)
                = sunTime (day_cycle (deltaTime i) st)).
  { simpl. congruence. }
  split; [done|]. rewrite Heq. apply day_cycle_below_90.
Qed.

(** ** The output *)

Lemma frame_loop_trace (P : Platform) (inputs : list Input) (st : State)
    (out : list effect) :
  exists n, (n <= length inputs)%nat /\
    match frame_loop P inputs st out with
    | Running _ out' =>
        n = length inputs /\ out' = out ++ map fps inputs
    | Exit status out' =>
        status = 0 /\ (0 < n)%nat
        /\ (out' = out ++ map fps (take n inputs)
            \/ out' = out ++ map fps (take n inputs) ++ [SleepMs 3])
    | Undefined out' =>
        (n < length inputs)%nat /\ out' = out ++ map fps (take n inputs)
    end.
Proof.
  revert st out. induction inputs as [|i rest IH]; intros st out; simpl.
  - exists 0%nat. by rewrite app_nil_r.
  - destruct (frame P i st) as [[[s1 running] eff]|] eqn:Hf.
    2: { exists 0%nat. simpl. rewrite app_nil_r. split_and!; [lia|lia|done]. }
    pose proof (frame_end P i st s1 running eff Hf) as He.
    destruct running.
    + assert (Heff : eff = [fps i]).
      { destruct (steveRef s1), (pigRef s1); by destruct He. }
      subst eff. destruct (IH s1 (out ++ [fps i])) as (n & Hn & Hcase).
      exists (S n). split; [lia|].
      destruct (frame_loop P rest s1 (out ++ [fps i])) as [c o|o|s o];
        simpl; rewrite <- ?(assoc_L (++)) in Hcase; simpl in Hcase.
      * destruct Hcase as (-> & Hpos & Ho). split_and!; [done|lia|done].
      * destruct Hcase as (Hlt & Ho). split; [lia|done].
      * destruct Hcase as (-> & Ho). done.
    + exists 1%nat. split; [lia|]. simpl.
      split_and!; [done|lia|].
      destruct (steveRef s1), (pigRef s1); destruct He as [_ ->]; auto.
Qed.

(** X8: the output of [main].  The working directory comes first; a
    failed shader load adds the error line and nothing else; otherwise
    every iteration that was run writes one frame-rate line, in order,
    and the only other effect is one [Sleep(3)], after the last
    frame-rate line of a run that returns 0. *)
Theorem main_output (P : Platform) (inputs : list Input) :
  exists n, (n <= length inputs)%nat /\
    match main P inputs with
    | Running _ out =>
        n = length inputs /\ out = StdoutCwd :: map fps inputs
    | Exit status out =>
        (status = 1 /\ n = 0%nat
         /\ exists what, out = [StdoutCwd; Stdout ("ERROR: " +:+ what +:+ endl)])
        \/ (status = 0 /\ (0 < n)%nat
            /\ (out = StdoutCwd :: map fps (take n inputs)
                \/ out = StdoutCwd :: map fps (take n inputs) ++ [SleepMs 3]))
    | Undefined out =>
        (n < length inputs)%nat
        /\ out = StdoutCwd :: map fps (take n inputs)
    end.
Proof.
  pose proof (minecraftScene_cases P globals) as Hc.
  unfold texturingShader in Hc.
  destruct (shader_load P _ _ _) as [what|shader].
  - unfold main. rewrite Hc. exists 0%nat. split; [lia|]. left.
    split_and!; [done|done|by exists what].
  - destruct Hc as (st0 & Hm & _).
    destruct (minecraftScene_globals P st0 Hm) as (Ha & _).
    rewrite (main_loop P inputs st0 Hm Ha).
    destruct (frame_loop_trace P inputs (set_animators [] st0) [StdoutCwd])
      as (n & Hn & Hcase).
    exists n. split; [done|].
    destruct (frame_loop P inputs _ _) as [c o|o|s o]; simpl in Hcase.
    + right. done.
    + done.
    + done.
Qed.

(** ** The camera *)

Lemma flee_block_view (P : Platform) (t : target) (dt : float)
    (st st' : State) :
  flee_block P t dt st = Some st' ->
  pitch st' = pitch st /\ yaw st' = yaw st
  /\ cameraPos st' = cameraPos st /\ cameraFront st' = cameraFront st.
Proof.
  unfold flee_block. intros Hb.
  destruct (creeperRef st) as [c|]; [|by injection Hb as <-].
  destruct (targetRef t st) as [r|]; [|by injection Hb as <-].
  destruct (flee_move P t dt st) as [s1|] eqn:Hm; simpl in Hb; [|done].
  assert (H1 : pitch s1 = pitch st /\ yaw s1 = yaw st
               /\ cameraPos s1 = cameraPos st
               /\ cameraFront s1 = cameraFront st).
  { revert Hm. unfold flee_move, call.
    destruct (targetRef t st) as [q|]; simpl; [|done].
    destruct (load q st) as [o|]; simpl; [|done].
    intros Hm. simplify_option_eq.
    repeat match goal with
    | H : store _ _ _ = Some _ |- _ =>
        unfold store in H; repeat case_match; simplify_option_eq
    end; destruct t; done. }
  assert (H2 : pitch st' = pitch s1 /\ yaw st' = yaw s1
               /\ cameraPos st' = cameraPos s1
               /\ cameraFront st' = cameraFront s1).
  { revert Hb. unfold explode. intros Hb. simplify_option_eq.
    repeat case_match; simplify_eq; try done;
      unfold relink; destruct t; simpl; by case_match. }
  destruct H1 as (? & ? & ? & ?), H2 as (? & ? & ? & ?).
  split_and!; congruence.
Qed.

Lemma camera_keys_pitch (i : Input) (st : State) :
  (keyS i = true ->
   fltb (pitch (camera_keys i st)) (radians (of_Z (-89))) = false)
  /\ (keyW i = true -> keyS i = false ->
      fgtb (pitch (camera_keys i st)) (radians (of_Z 89)) = false)
  /\ (keyW i = false -> keyS i = false ->
      pitch (camera_keys i st) = pitch st).
Proof.
  unfold camera_keys. cbv zeta.
  destruct (keyW i), (keyS i), (keyA i), (keyD i); simpl;
    (split_and!; [intros ?|intros ? ?|intros ? ?]); try done;
    case_match; done.
Qed.

Lemma camera_keys_pitch_eq (i : Input) (st st' : State) :
  pitch st' = pitch st ->
  pitch (camera_keys i st') = pitch (camera_keys i st).
Proof.
  intros He. unfold camera_keys. cbv zeta.
  destruct (keyW i), (keyS i), (keyA i), (keyD i); simpl; by rewrite ?He.
Qed.

Lemma frame_pitch (P : Platform) (i : Input) (st st' : State)
    (running : bool) (eff : list effect) :
  frame P i st = Some (st', running, eff) ->
  pitch st' = pitch (camera_keys i st).
Proof.
  intros Hf.
  destruct (frame_steps _ _ _ _ _ _ Hf)
    as (s1 & s2 & s3 & s4 & s5 & ans & H1 & H2 & H3 & H4 & H5 & ->).
  apply sun_step_quiet in H1 as (_ & _ & _ & _ & _ & _ & _ & _ & Hp1 & _).
  apply creeper_control_quiet in H2
    as (_ & _ & _ & _ & _ & _ & _ & _ & Hp2 & _).
  apply flee_block_view in H3 as (Hp3 & _).
  apply flee_block_view in H4 as (Hp4 & _).
  apply tick_animators_quiet in H5
    as (_ & _ & _ & _ & _ & _ & _ & _ & Hp5 & _).
  destruct (day_cycle_footprint (deltaTime i) st)
    as (_ & _ & _ & _ & _ & _ & _ & _ & Hp0).
  simpl. rewrite Hp5, Hp4, Hp3, Hp2.
  apply camera_keys_pitch_eq. congruence.
Qed.

(** X7: the pitch at the end of an iteration, whatever the frame time:
    not below -89 degrees when S was held, not above 89 degrees when W was
    held and S was not, and unchanged when neither was held. *)
Theorem pitch_clamped (P : Platform) (i : Input) (st st' : State)
    (running : bool) (eff : list effect) :
  frame P i st = Some (st', running, eff) ->
  (keyS i = true -> fltb (pitch st') (radians (of_Z (-89))) = false)
  /\ (keyW i = true -> keyS i = false ->
      fgtb (pitch st') (radians (of_Z 89)) = false)
  /\ (keyW i = false -> keyS i = false -> pitch st' = pitch st).
Proof.
  intros Hf. rewrite (frame_pitch _ _ _ _ _ _ Hf).
  apply camera_keys_pitch.
Qed.

(** X13: the chase camera.  After the hunter block the camera looks
    along the direction of [yaw] and [pitch], and it sits 5 behind and 3
    above the position the hunter had before the arrow keys of this
    iteration moved it; with no arrow key held the block leaves the scene
    and the heap as they are. *)
Theorem chase_camera_trails_hunter (P : Platform) (i : Input)
    (st st' : State) (c : ptr) (o : Object3D) :
  creeperRef st = Some c ->
  load c st = Some o ->
  creeper_control P i st = Some st' ->
  let direction :=
    Vec3 (fmul (cosf P (yaw st)) (cosf P (pitch st)))
         (sinf P (pitch st))
         (fmul (sinf P (yaw st)) (cosf P (pitch st))) in
  cameraFront st' = normalize direction
  /\ cameraPos st'
     = vadd (getPosition o)
            (vadd (vscale (vneg (normalize (flat (normalize direction))))
                          (of_Z 5))
                  (Vec3 (of_Z 0) (of_Z 3) (of_Z 0)))
  /\ (keyUp i = false -> keyDown i = false ->
      keyLeft i = false -> keyRight i = false ->
      myScene st' = myScene st /\ heap st' = heap st).
Proof.
  intros Hc Ho. unfold creeper_control. rewrite Hc, Ho.
  cbn [mbind option_bind]. intros Hcc.
  destruct (steer P c (keyUp i) _ _ st) as [s1|] eqn:H1; simpl in Hcc; [|done].
  destruct (steer P c (keyDown i) _ _ s1) as [s2|] eqn:H2;
    simpl in Hcc; [|done].
  destruct (steer P c (keyLeft i) _ _ s2) as [s3|] eqn:H3;
    simpl in Hcc; [|done].
  destruct (steer P c (keyRight i) _ _ s3) as [s4|] eqn:H4;
    simpl in Hcc; [|done].
  injection Hcc as <-.
  assert (Hq : quiet st s4).
  { eapply quiet_trans; [by eapply steer_quiet|].
    eapply quiet_trans; [by eapply steer_quiet|].
    eapply quiet_trans; [by eapply steer_quiet|]. by eapply steer_quiet. }
  destruct Hq as (_ & _ & _ & _ & _ & _ & _ & _ & Hp & Hy).
  simpl. rewrite Hp, Hy. split_and!; [done|done|].
  intros Ku Kd Kl Kr. rewrite Ku in H1. rewrite Kd in H2. rewrite Kl in H3.
  rewrite Kr in H4. simpl in *. by simplify_eq.
Qed.

(** ** The demonstration scenes *)

Lemma rotate_tick (dt : float) (a : RotationAnimation float) (o : Object3D) :
  setOrientation (ra_tick dt a (m_orientation o)).1.2 o
  = rotate (ra_step a dt) o.
Proof. done. Qed.



Lemma load_child_play (sc : Scene) (a : addr) (i : nat) (l : list Object3D)
    (g : gmap addr (list Object3D)) :
  load (InChildren a i) (play sc (<[a := l]> g)) = l !! i.
Proof. cbn [load play set_heap heap]. by rewrite lookup_insert_eq. Qed.

(** X12: the tiger's animation in [lifeOfPi] targets child 1 of the
    boat, and the tiger is appended behind the children the boat was
    imported with.  With no imported child the call [getChild(1)] is
    outside its precondition; with exactly one the target is the tiger;
    with more the target is the second imported child of the boat, not
    the appended tiger. *)
Theorem lifeOfPi_tiger_target (P : Platform)
    (h h1 h2 : gmap addr (list Object3D)) (shader : ShaderProgram)
    (boat0 tiger0 : Object3D) :
  texturingShader P = Ret shader ->
  assimpLoad P "models/boat/boat.fbx" true h = (boat0, h1) ->
  assimpLoad P "models/tiger/scene.gltf" true h1 = (tiger0, h2) ->
  let kids := children boat0 h2 in
  let tiger := move (Vec3 (of_Z 0) (of_Z (-5)) (of_Z 10)) tiger0 in
  (kids = [] -> lifeOfPi P h = Ret None)
  /\ (kids <> [] ->
      exists sc h' boat animBoat animTiger,
        lifeOfPi P h = Ret (Some (sc, h'))
        /\ objects sc = [boat]
        /\ children boat h' = kids ++ [tiger]
        /\ animators sc = [animBoat; mkAnimator [animTiger] false]
        /\ load (ra_target animTiger) (play sc h') = (kids ++ [tiger]) !! 1%nat
        /\ (length kids = 1%nat ->
            load (ra_target animTiger) (play sc h') = Some tiger)
        /\ ((1 < length kids)%nat ->
            load (ra_target animTiger) (play sc h') = kids !! 1%nat)).
Proof.
  intros Hs Hb Ht kids tiger. unfold lifeOfPi, run_bind.
  rewrite Hs. cbn [move grow setPosition setScale m_children m_name
    m_position m_orientation m_scale].
  rewrite Hb. cbn [move grow setPosition setScale m_children m_name
    m_position m_orientation m_scale]. rewrite Ht.
  unfold addChild, getChild_at.
  cbn [m_children setChildren setPosition setScale move grow lookup
    list_lookup mbind option_bind].
  rewrite lookup_insert_eq. cbn [mbind option_bind].
  fold (children boat0 h2). fold kids. fold tiger.
  rewrite length_app. cbn [length].
  split.
  - intros ->. simpl. done.
  - intros Hne. rewrite decide_True by (destruct kids; [done|simpl; lia]).
    cbn [mbind option_bind].
    do 5 eexists. split; [done|]. cbn [objects animators].
    split; [done|].
    split.
    { unfold children. cbn [m_children setChildren mbind option_bind].
      by rewrite lookup_insert_eq. }
    split; [done|].
    cbn [ra_target RotationAnimation_new]. rewrite load_child_play.
    split; [done|]. split.
    + intros Hlen. destruct kids as [|k [|k' ks]]; simpl in Hlen; done.
    + intros Hlen. by apply lookup_app_l.
Qed.

(** ** The floor *)

Lemma tiles_length : length tiles = (101 * 101)%nat.
Proof. by_compute. Qed.

Lemma tiles_on_map : Forall on_map tiles.
Proof. by_compute. Qed.

(** X9: on every platform on which the shader loads, the scene of
    [minecraftScene] has 101 * 101 + 4 objects: first the 101 * 101 floor
    tiles, unnamed, without children, at height -1.5 and within the map
    bounds on both axes; Steve, the pig and the hunter are referred to at
    slots 101 * 101, 101 * 101 + 1 and 101 * 101 + 3, and the last object
    is named "Creeper". *)
Theorem scene_floor_and_cast (P : Platform) (st : State) :
  minecraftScene P globals = Ret st ->
  length (objects (myScene st)) = (101 * 101 + 4)%nat
  /\ Forall on_map (take (101 * 101) (objects (myScene st)))
  /\ steveRef st = Some (InScene (101 * 101))
  /\ pigRef st = Some (InScene (101 * 101 + 1))
  /\ creeperRef st = Some (InScene (101 * 101 + 3))
  /\ exists creeper,
       last (objects (myScene st)) = Some creeper
       /\ getName creeper = "Creeper".
Proof.
  intros Hm.
  destruct (minecraftScene_layout P st Hm)
    as (steve & pig & sky & creeper & sun & cloud & a & Hlay & Hname & _).
  destruct Hlay as [Hobj Hst Hpi Hcr _ _ _].
  pose proof tiles_length as Hlen.
  rewrite Hobj, Hst, Hpi, Hcr, length_app, Hlen.
  split_and!.
  - simpl. lia.
  - rewrite <- Hlen, take_app_length. apply tiles_on_map.
  - done.
  - do 2 f_equal; lia.
  - done.
  - exists creeper. split; [|done].
    replace (tiles ++ [steve; pig; sky; creeper])
      with ((tiles ++ [steve; pig; sky]) ++ [creeper])
      by (by rewrite <- (assoc_L (++))).
    apply last_snoc.
Qed.

(** ** The second removal *)

Lemma destroy_releases (k : nat) (o : Object3D) (a : addr)
    (cs : list Object3D) (h : gmap addr (list Object3D)) :
  m_children o = Some a -> h !! a = Some cs ->
  destroy (S k) o h !! a = None.
Proof.
  intros Ho Ha. rewrite destroy_unfold, Ho, Ha.
  assert (Hsub : foldr (destroy k) (delete a h) cs ⊆ delete a h).
  { generalize (delete a h). intros g. clear Ha.
    induction cs as [|c cs IH]; [done|]. simpl.
    transitivity (foldr (destroy k) g cs); [apply destroy_subseteq|done]. }
  eapply lookup_weaken_None; [|exact Hsub]. apply lookup_delete_eq.
Qed.

Lemma delete_behind (pre l : list Object3D) (i : nat) :
  delete (length pre + i)%nat (pre ++ l) = pre ++ delete i l.
Proof. induction pre as [|o pre IH]; [done|]. simpl. by rewrite IH. Qed.

(** X14: once Steve has been removed and the object list has shifted,
    the pig's reference designates the sky, and the pig block measures
    the hunter's distance to the sky.  At 0.8 or more nothing is removed;
    below 0.8 the sky is erased from the list and the pig stays in it,
    both target references are null, the sun's reference keeps its value
    while the sky's child buffer is released: it designates no object any
    more. *)
Theorem second_catch_erases_the_sky (st : State) (pre : list Object3D)
    (pig sky creeper sun hunter : Object3D) (clouds : list Object3D)
    (a : addr) (c : ptr) :
  objects (myScene st) = pre ++ [pig; sky; creeper] ->
  steveRef st = None ->
  pigRef st = Some (InScene (S (length pre))) ->
  creeperRef st = Some c ->
  load c st = Some hunter ->
  sunRef st = Some (InChildren a 0) ->
  m_children sky = Some a ->
  heap st !! a = Some (sun :: clouds) ->
  designates (pigRef st) st = Some sky
  /\ (fltb (length3 (vsub (getPosition hunter) (getPosition sky))) (dec 8 10)
      = false ->
      explode Pig st = Some st)
  /\ (fltb (length3 (vsub (getPosition hunter) (getPosition sky))) (dec 8 10)
      = true ->
      exists st',
        explode Pig st = Some st'
        /\ objects (myScene st') = pre ++ [pig; creeper]
        /\ steveRef st' = None /\ pigRef st' = None
        /\ sunRef st' = sunRef st
        /\ heap st' !! a = None
        /\ designates (sunRef st') st' = None).
Proof.
  intros Hobj Hs Hp Hc Hh Hsun Hsky Hheap.
  assert (Hl : objects (myScene st) !! S (length pre) = Some sky).
  { rewrite Hobj, lookup_app_r by lia.
    by replace (S (length pre) - length pre)%nat with 1%nat by lia. }
  split_and!.
  - by rewrite Hp.
  - intros Hfar. by eapply (explode_far Pig).
  - intros Hnear. exists (removed Pig (S (length pre)) sky st).
    destruct (removed_refs Pig (S (length pre)) sky st)
      as (Hnull & Hsun' & _ & Hsteve & Hheap' & _).
    assert (Hgone : heap (removed Pig (S (length pre)) sky st) !! a = None).
    { rewrite Hheap'. by eapply destroy_releases. }
    split_and!.
    + by eapply (explode_near Pig).
    + rewrite removed_objects, Hobj.
      replace (S (length pre)) with (length pre + 1)%nat by lia.
      by rewrite delete_behind.
    + by rewrite (Hsteve eq_refl).
    + done.
    + done.
    + done.
    + rewrite Hsun', Hsun. simpl. by rewrite Hgone.
Qed.

Lemma second_catch_erases_the_sky_witness :
  exists st',
    explode Pig sky_caught = Some st'
    /\ objects (myScene st')
       = tiles ++ [demo_pig;
                   setPosition (Vec3 (of_Z 0) (of_Z 0) (dec 5 10))
                               demo_creeper]
    /\ designates (sunRef st') st' = None.
Proof.
  destruct (second_catch_erases_the_sky sky_caught tiles demo_pig demo_sky
              (setPosition (Vec3 (of_Z 0) (of_Z 0) (dec 5 10)) demo_creeper)
              demo_sun
              (setPosition (Vec3 (of_Z 0) (of_Z 0) (dec 5 10)) demo_creeper)
              [demo_cloud] 1%nat (InScene (length tiles + 2)))
    as (_ & _ & Hnear).
  - by_compute.
  - by_compute.
  - by_compute.
  - by_compute.
  - by_compute.
  - by_compute.
  - by_compute.
  - by_compute.
  - destruct Hnear as (st' & He & Hobj & _ & _ & _ & _ & Hsun).
    + by_compute.
    + exists st'. exact (conj He (conj Hobj Hsun)).
Defined.

(** ** The further theorems on the demo platforms *)

Lemma demo_platform_well_formed (b : bool) :
  well_formed_import (demo_platform b).
Proof.
  intros path flipUV h o h' [= <- <-] Hcl. split_and!; [done|done|].
  by intros a.
Qed.

Lemma rigged_platform_well_formed : well_formed_import rigged_platform.
Proof.
  intros path flipUV h o h' [= <- <-] Hcl.
  pose proof (is_fresh (dom h)) as Hfr.
  split_and!.
  - apply dom_insert_subseteq.
  - intros b cs c Hb Hcs Hc.
    destruct (decide (b = fresh (dom h))) as [->|Hne].
    + rewrite lookup_insert_eq in Hcs. injection Hcs as <-.
      apply list_elem_of_singleton in Hc as ->. by intros a.
    + rewrite lookup_insert_ne in Hcs by done.
      assert (Hbh : b ∈ dom h) by (apply elem_of_dom; by eexists).
      eapply handles_in_mono; [apply dom_insert_subseteq|].
      by eapply Hcl.
  - intros a [= <-]. rewrite dom_insert. apply elem_of_union_l.
    by apply elem_of_singleton.
Qed.

Lemma demo_scene_built :
  minecraftScene (demo_platform true) globals = Ret demo_scene.
Proof.
  pose proof (minecraftScene_cases (demo_platform true) globals) as Hc.
  change (texturingShader (demo_platform true)) with (@Ret ShaderProgram 1%nat)
    in Hc.
  destruct Hc as (st' & Hm & _). unfold demo_scene. by rewrite Hm.
Qed.

Lemma main_never_undefined_witness :
  main rigged_platform [idle (dec 1 60); closing (dec 1 60)] <> Undefined [].
Proof.
  apply (main_never_undefined rigged_platform
           [idle (dec 1 60); closing (dec 1 60)] []).
  exact rigged_platform_well_formed.
Defined.

Lemma closed_event_ends_main_witness :
  exists status out,
    main rigged_platform [idle (dec 1 60); closing (dec 1 60)]
    = Exit status out
    /\ (status = 0 \/ status = 1).
Proof.
  apply (closed_event_ends_main rigged_platform
           [idle (dec 1 60); closing (dec 1 60)]).
  - exact rigged_platform_well_formed.
  - apply Exists_cons_tl, Exists_cons_hd. reflexivity.
Defined.

Lemma references_stay_live_witness :
  exists st out,
    main (demo_platform true) [idle (dec 1 60)] = Running st out
    /\ (exists c, designates (creeperRef st) st = Some c
                  /\ getName c = "Creeper")
    /\ is_Some (designates (sunRef st) st).
Proof.
  destruct (main (demo_platform true) [idle (dec 1 60)])
    as [status out|out|st out] eqn:Hm.
  - exfalso.
    assert (Hr : match main (demo_platform true) [idle (dec 1 60)] with
                 | Running _ _ => True
                 | _ => False
                 end) by (vm_compute; exact I).
    by rewrite Hm in Hr.
  - exfalso.
    assert (Hr : match main (demo_platform true) [idle (dec 1 60)] with
                 | Running _ _ => True
                 | _ => False
                 end) by (vm_compute; exact I).
    by rewrite Hm in Hr.
  - destruct (references_stay_live (demo_platform true) [idle (dec 1 60)]
                st out (demo_platform_well_formed true) Hm)
      as (Hc & Hs & _).
    exists st, out. exact (conj eq_refl (conj Hc Hs)).
Defined.

Lemma references_only_go_null_witness :
  exists st' out',
    frame_loop (demo_platform true) [idle (dec 1 60)] demo_scene []
    = Running st' out'
    /\ sunRef st' = sunRef demo_scene
    /\ (length (objects (myScene st'))
        <= length (objects (myScene demo_scene)))%nat.
Proof.
  destruct (frame_loop (demo_platform true) [idle (dec 1 60)] demo_scene [])
    as [status out|out|st out] eqn:Hm.
  - exfalso.
    assert (Hr : match frame_loop (demo_platform true) [idle (dec 1 60)]
                         demo_scene [] with
                 | Running _ _ => True
                 | _ => False
                 end) by (vm_compute; exact I).
    by rewrite Hm in Hr.
  - exfalso.
    assert (Hr : match frame_loop (demo_platform true) [idle (dec 1 60)]
                         demo_scene [] with
                 | Running _ _ => True
                 | _ => False
                 end) by (vm_compute; exact I).
    by rewrite Hm in Hr.
  - destruct (references_only_go_null (demo_platform true)
                [idle (dec 1 60)] demo_scene st [] out Hm)
      as (Hs & _ & Hle & _).
    exists st, out. exact (conj eq_refl (conj Hs Hle)).
Defined.

Lemma flee_directions_stay_on_x_axis_witness :
  exists st out,
    main (demo_platform true) [idle (of_Z 60)] = Running st out
    /\ axis_x (steveFleeDir st) /\ axis_x (pigFleeDir st).
Proof.
  destruct (main (demo_platform true) [idle (of_Z 60)])
    as [status out|out|st out] eqn:Hm.
  - exfalso.
    assert (Hr : match main (demo_platform true) [idle (of_Z 60)] with
                 | Running _ _ => True
                 | _ => False
                 end) by (vm_compute; exact I).
    by rewrite Hm in Hr.
  - exfalso.
    assert (Hr : match main (demo_platform true) [idle (of_Z 60)] with
                 | Running _ _ => True
                 | _ => False
                 end) by (vm_compute; exact I).
    by rewrite Hm in Hr.
  - exists st, out.
    exact (conj eq_refl
             (flee_directions_stay_on_x_axis (demo_platform true)
                [idle (of_Z 60)] st out Hm)).
Defined.

Lemma clock_below_90_after_frame_witness :
  exists st' running eff,
    frame (demo_platform true) (idle (of_Z 100)) demo_scene
    = Some (st', running, eff)
    /\ fltb (sunTime st') (of_Z 90) = true.
Proof.
  destruct (frame (demo_platform true) (idle (of_Z 100)) demo_scene)
    as [[[st' running] eff]|] eqn:Hf.
  - destruct (clock_below_90_after_frame (demo_platform true)
                (idle (of_Z 100)) demo_scene st' running eff Hf) as [_ Hlt].
    exists st', running, eff. exact (conj eq_refl Hlt).
  - exfalso.
    assert (Hs : is_Some (frame (demo_platform true) (idle (of_Z 100))
                                demo_scene)) by by_compute.
    rewrite Hf in Hs. by destruct Hs.
Defined.

Lemma pitch_clamped_witness :
  exists st' running eff,
    frame (demo_platform true) (looking_up (of_Z 1)) demo_scene
    = Some (st', running, eff)
    /\ fgtb (pitch st') (radians (of_Z 89)) = false.
Proof.
  destruct (frame (demo_platform true) (looking_up (of_Z 1)) demo_scene)
    as [[[st' running] eff]|] eqn:Hf.
  - destruct (pitch_clamped (demo_platform true) (looking_up (of_Z 1))
                demo_scene st' running eff Hf) as (_ & Hup & _).
    exists st', running, eff. exact (conj eq_refl (Hup eq_refl eq_refl)).
  - exfalso.
    assert (Hs : is_Some (frame (demo_platform true) (looking_up (of_Z 1))
                                demo_scene)) by by_compute.
    rewrite Hf in Hs. by destruct Hs.
Defined.

Lemma scene_floor_and_cast_witness :
  length (objects (myScene demo_scene)) = (101 * 101 + 4)%nat
  /\ steveRef demo_scene = Some (InScene (101 * 101)).
Proof.
  destruct (scene_floor_and_cast (demo_platform true) demo_scene
              demo_scene_built) as (Hlen & _ & Hs & _).
  exact (conj Hlen Hs).
Defined.

Lemma chase_camera_trails_hunter_witness :
  exists st',
    creeper_control (demo_platform true) (idle (dec 1 60)) demo_scene
    = Some st'
    /\ myScene st' = myScene demo_scene.
Proof.
  pose proof demo_scene_layout as Hlay.
  destruct (layout_loads _ _ _ _ _ _ _ _ _ Hlay) as (_ & _ & _ & Hcr).
  unfold designates in Hcr.
  rewrite (lay_creeper _ _ _ _ _ _ _ _ _ Hlay) in Hcr.
  destruct (creeper_control (demo_platform true) (idle (dec 1 60)) demo_scene)
    as [st'|] eqn:Hc.
  - destruct (chase_camera_trails_hunter (demo_platform true)
                (idle (dec 1 60)) demo_scene st'
                (InScene (length tiles + 3)) demo_creeper
                (lay_creeper _ _ _ _ _ _ _ _ _ Hlay) Hcr Hc)
      as (_ & _ & Hidle).
    exists st'.
    exact (conj eq_refl (proj1 (Hidle eq_refl eq_refl eq_refl eq_refl))).
  - exfalso.
    assert (Hs : is_Some (creeper_control (demo_platform true)
                            (idle (dec 1 60)) demo_scene)) by by_compute.
    rewrite Hc in Hs. by destruct Hs.
Defined.





Lemma lifeOfPi_tiger_target_witness :
  lifeOfPi (demo_platform true) ∅ = Ret None
  /\ exists sc h' tiger,
       lifeOfPi rigged_platform ∅ = Ret (Some (sc, h'))
       /\ getName tiger = "models/tiger/scene.gltf"
       /\ exists animBoat animTiger,
            animators sc = [animBoat; mkAnimator [animTiger] false]
            /\ load (ra_target animTiger) (play sc h') = Some tiger.
Proof.
  split.
  - apply (lifeOfPi_tiger_target (demo_platform true) ∅ ∅ ∅ 1%nat
             (setName "models/boat/boat.fbx" Object3D_new)
             (setName "models/tiger/scene.gltf" Object3D_new)
             eq_refl eq_refl eq_refl).
    reflexivity.
  - destruct (lifeOfPi_tiger_target rigged_platform ∅
                (assimpLoad rigged_platform "models/boat/boat.fbx" true ∅).2
                (assimpLoad rigged_platform "models/tiger/scene.gltf" true
                   (assimpLoad rigged_platform "models/boat/boat.fbx" true
                      ∅).2).2
                1%nat
                (assimpLoad rigged_platform "models/boat/boat.fbx" true ∅).1
                (assimpLoad rigged_platform "models/tiger/scene.gltf" true
                   (assimpLoad rigged_platform "models/boat/boat.fbx" true
                      ∅).2).1
                eq_refl eq_refl eq_refl) as [_ Hsome].
    destruct Hsome as (sc & h' & boat & animBoat & animTiger & Hl & _ & _
                       & Han & _ & Hone & _).
    + by_compute.
    + exists sc, h'. eexists. split; [exact Hl|]. split; [|].
      2: { exists animBoat, animTiger. split; [exact Han|].
           apply Hone. by_compute. }
      reflexivity.
Defined.
